(** * Notes application: a shallow embedding of [src/project/src/App.tsx]

    The component keeps three pieces of React state ([notes], [activeNote],
    [isEditing]) and mirrors [notes] into the [localStorage] slot ['notes'].
    Event handlers read the state captured by the render that created them and
    queue state updates; the next render applies the queued updates and runs
    the effect whose dependency ([notes]) was replaced.

    The platform functions the component calls ([Date], [JSON],
    [localStorage]) are modelled after ECMA-262 and the Web Storage API, as
    far as the component uses them.  Strings are JavaScript strings, i.e.
    sequences of UTF-16 code units. *)

From Stdlib Require Import String Ascii ZArith NArith List Bool Lia.
From Stdlib Require Import DecimalString DecimalZ.
Import ListNotations.

Local Open Scope Z_scope.

(* ================================================================== *)
(** ** JavaScript strings *)

(** A JavaScript string: the list of its UTF-16 code units. *)
Definition jsstring := list N.

(** The code units of an ASCII literal of the source text. *)
Definition lit (s : string) : jsstring :=
  map N_of_ascii (list_ascii_of_string s).

(** [a === b] on strings: same length, same code units. *)
Fixpoint str_eqb (a b : jsstring) : bool :=
  match a, b with
  | [], [] => true
  | x :: a', y :: b' => N.eqb x y && str_eqb a' b'
  | _, _ => false
  end.

(** [Number.prototype.toString] on an integral number of magnitude below
    1e21 (every clock reading is one): the decimal digits, with a leading
    minus sign for a negative number. *)
Definition Number_toString (z : Z) : jsstring :=
  lit (NilZero.string_of_int (Z.to_int z)).

(** [c] is the ASCII character [a]. *)
Definition is_char (a : ascii) (c : N) : bool := N.eqb c (N_of_ascii a).
Arguments is_char a%_char c%_N.

(** Continue with [k] when [x] has a value. *)
Definition bind {A B} (x : option A) (k : A -> option B) : option B :=
  match x with
  | Some a => k a
  | None => None
  end.

Notation "'let?' x ':=' e 'in' k" := (bind e (fun x => k))
  (at level 10, x pattern, e at level 200, k at level 200).

(** The next code unit must be the character [a]. *)
Definition expect (a : ascii) (s : jsstring) : option jsstring :=
  match s with
  | c :: r => if is_char a c then Some r else None
  | [] => None
  end.
Arguments expect a%_char s.

(* ================================================================== *)
(** ** Dates (ECMA-262, Date objects) *)

Module Date.

Definition msPerDay : Z := 86400000.
Definition msPerHour : Z := 3600000.
Definition msPerMinute : Z := 60000.
Definition msPerSecond : Z := 1000.

(** A time value a [Date] can hold: at most 100,000,000 days from the epoch. *)
Definition maxTime : Z := 8640000000000000.

Definition time_in_range (t : Z) : bool :=
  (- maxTime <=? t) && (t <=? maxTime).

Definition Day (t : Z) : Z := t / msPerDay.
Definition TimeWithinDay (t : Z) : Z := t mod msPerDay.

Definition DayFromYear (y : Z) : Z :=
  365 * (y - 1970) + (y - 1969) / 4 - (y - 1901) / 100 + (y - 1601) / 400.

Definition isLeapYear (y : Z) : bool :=
  ((y mod 4 =? 0) && negb (y mod 100 =? 0)) || (y mod 400 =? 0).

Definition DaysInYear (y : Z) : Z := if isLeapYear y then 366 else 365.

(** The largest [y] with [DayFromYear y <= day]: a first guess from the mean
    length of a year, corrected by at most one. *)
Definition YearFromDay (day : Z) : Z :=
  let y := 1970 + (400 * day) / 146097 in
  if DayFromYear (y + 1) <=? day then y + 1
  else if DayFromYear y <=? day then y
  else y - 1.

Definition YearFromTime (t : Z) : Z := YearFromDay (Day t).

(** First day, within its year, of month [m] (0 = January). *)
Definition MonthStart (leap : bool) (m : Z) : Z :=
  let l := if leap then 1 else 0 in
  if m <=? 0 then 0
  else if m =? 1 then 31
  else if m =? 2 then 59 + l
  else if m =? 3 then 90 + l
  else if m =? 4 then 120 + l
  else if m =? 5 then 151 + l
  else if m =? 6 then 181 + l
  else if m =? 7 then 212 + l
  else if m =? 8 then 243 + l
  else if m =? 9 then 273 + l
  else if m =? 10 then 304 + l
  else if m =? 11 then 334 + l
  else 365 + l.

Definition DayWithinYear (t : Z) : Z := Day t - DayFromYear (YearFromTime t).

Definition MonthFromDay (leap : bool) (d : Z) : Z :=
  if d <? MonthStart leap 1 then 0
  else if d <? MonthStart leap 2 then 1
  else if d <? MonthStart leap 3 then 2
  else if d <? MonthStart leap 4 then 3
  else if d <? MonthStart leap 5 then 4
  else if d <? MonthStart leap 6 then 5
  else if d <? MonthStart leap 7 then 6
  else if d <? MonthStart leap 8 then 7
  else if d <? MonthStart leap 9 then 8
  else if d <? MonthStart leap 10 then 9
  else if d <? MonthStart leap 11 then 10
  else 11.

Definition MonthFromTime (t : Z) : Z :=
  MonthFromDay (isLeapYear (YearFromTime t)) (DayWithinYear t).

Definition DateFromTime (t : Z) : Z :=
  DayWithinYear t - MonthStart (isLeapYear (YearFromTime t)) (MonthFromTime t) + 1.

Definition HourFromTime (t : Z) : Z := (t / msPerHour) mod 24.
Definition MinFromTime (t : Z) : Z := (t / msPerMinute) mod 60.
Definition SecFromTime (t : Z) : Z := (t / msPerSecond) mod 60.
Definition msFromTime (t : Z) : Z := t mod msPerSecond.

(** [n] in decimal on exactly [w] digits (the low [w] digits of [n]). *)
Fixpoint digits (w : nat) (n : Z) : jsstring :=
  match w with
  | O => []
  | S w' => digits w' (n / 10) ++ [Z.to_N (48 + n mod 10)]
  end.

(** The year: four digits from 0 to 9999, otherwise a sign and six digits. *)
Definition year_digits (y : Z) : jsstring :=
  if (0 <=? y) && (y <=? 9999) then digits 4 y
  else if y <? 0 then lit "-" ++ digits 6 (- y)
  else lit "+" ++ digits 6 y.

(** [Date.prototype.toISOString] for a time value in range:
    [YYYY-MM-DDTHH:mm:ss.sssZ]. *)
Definition toISOString (t : Z) : jsstring :=
  year_digits (YearFromTime t)
  ++ lit "-" ++ digits 2 (MonthFromTime t + 1)
  ++ lit "-" ++ digits 2 (DateFromTime t)
  ++ lit "T" ++ digits 2 (HourFromTime t)
  ++ lit ":" ++ digits 2 (MinFromTime t)
  ++ lit ":" ++ digits 2 (SecFromTime t)
  ++ lit "." ++ digits 3 (msFromTime t)
  ++ lit "Z".

Definition digit_value (c : N) : option Z :=
  if (48 <=? c)%N && (c <=? 57)%N then Some (Z.of_N c - 48) else None.

(** Exactly [w] decimal digits, most significant first. *)
Fixpoint read_digits (w : nat) (acc : Z) (s : jsstring) : option (Z * jsstring) :=
  match w with
  | O => Some (acc, s)
  | S w' =>
      match s with
      | c :: r =>
          match digit_value c with
          | Some d => read_digits w' (10 * acc + d) r
          | None => None
          end
      | [] => None
      end
  end.

Definition read_year (s : jsstring) : option (Z * jsstring) :=
  match s with
  | c :: r =>
      if is_char "+" c then read_digits 6 0 r
      else if is_char "-" c then
        let? (y, r') := read_digits 6 0 r in
        if y =? 0 then None else Some (- y, r')
      else read_digits 4 0 s
  | [] => None
  end.

Definition DaysInMonth (y m : Z) : Z :=
  MonthStart (isLeapYear y) (m + 1) - MonthStart (isLeapYear y) m.

Definition MakeDay (y m d : Z) : Z :=
  DayFromYear y + MonthStart (isLeapYear y) m + d - 1.

Definition MakeTime (h m s ms : Z) : Z :=
  h * msPerHour + m * msPerMinute + s * msPerSecond + ms.

Definition MakeDate (day time : Z) : Z := day * msPerDay + time.

Definition TimeClip (t : Z) : option Z :=
  if time_in_range t then Some t else None.

(** [Date.parse] on the complete UTC form of the ECMA-262 date-time string
    format, [YYYY-MM-DDTHH:mm:ss.sssZ] with a plain or a signed six-digit
    year.  [None] stands for [NaN] and also for every other input (shorter
    forms, local time, offsets, formats left to the implementation), about
    which this model says nothing. *)
Definition parse (s : jsstring) : option Z :=
  let? (y, s) := read_year s in
  let? s := expect "-" s in
  let? (mo, s) := read_digits 2 0 s in
  let? s := expect "-" s in
  let? (d, s) := read_digits 2 0 s in
  let? s := expect "T" s in
  let? (h, s) := read_digits 2 0 s in
  let? s := expect ":" s in
  let? (mi, s) := read_digits 2 0 s in
  let? s := expect ":" s in
  let? (sec, s) := read_digits 2 0 s in
  let? s := expect "." s in
  let? (ms, s) := read_digits 3 0 s in
  let? s := expect "Z" s in
  match s with
  | [] =>
      if (1 <=? mo) && (mo <=? 12) && (1 <=? d) && (d <=? DaysInMonth y (mo - 1))
         && (h <=? 24) && (mi <=? 59) && (sec <=? 59)
         && ((h <? 24) || ((mi =? 0) && (sec =? 0) && (ms =? 0)))
      then TimeClip (MakeDate (MakeDay y (mo - 1) d) (MakeTime h mi sec ms))
      else None
  | _ :: _ => None
  end.

End Date.

(* ================================================================== *)
(** ** JavaScript values and JSON (ECMA-262, the JSON object) *)

Module JSON.

Local Open Scope N_scope.

(** The values that occur: what [JSON.parse] builds, and [Date] objects.  A
    number is kept as its JSON text; the notes hold none. *)
#[warnings="-register-all"] Inductive value : Type :=
| VNull
| VBool (b : bool)
| VNumber (lexeme : jsstring)
| VString (s : jsstring)
| VArray (items : list value)
| VObject (members : list (jsstring * value))
| VDate (t : Z).

Definition is_leading_surrogate (c : N) : bool := (0xD800 <=? c) && (c <=? 0xDBFF).
Definition is_trailing_surrogate (c : N) : bool := (0xDC00 <=? c) && (c <=? 0xDFFF).

Definition hex_digit (d : N) : N := if d <? 10 then 48 + d else 87 + d.

(** [\uXXXX], lower-case hexadecimal. *)
Definition UnicodeEscape (c : N) : jsstring :=
  lit "\u" ++ [hex_digit (c / 4096 mod 16); hex_digit (c / 256 mod 16);
               hex_digit (c / 16 mod 16); hex_digit (c mod 16)].

(** One code point that is not a surrogate pair. *)
Definition quote_unit (c : N) : jsstring :=
  if c =? 8 then lit "\b"
  else if c =? 9 then lit "\t"
  else if c =? 10 then lit "\n"
  else if c =? 12 then lit "\f"
  else if c =? 13 then lit "\r"
  else if c =? 34 then [92; 34]
  else if c =? 92 then [92; 92]
  else if (c <? 32) || is_leading_surrogate c || is_trailing_surrogate c
       then UnicodeEscape c
  else [c].

(** The string is read code point by code point: a leading surrogate followed
    by a trailing one is a pair and is copied, any other surrogate is alone
    and is escaped. *)
Fixpoint quote_units (s : jsstring) : jsstring :=
  match s with
  | [] => []
  | c :: r =>
      match r with
      | c2 :: r2 =>
          if is_leading_surrogate c && is_trailing_surrogate c2
          then c :: c2 :: quote_units r2
          else quote_unit c ++ quote_units r
      | [] => quote_unit c
      end
  end.

Definition QuoteJSONString (s : jsstring) : jsstring :=
  [34] ++ quote_units s ++ [34].

(** Elements or members separated by commas. *)
Fixpoint join (parts : list jsstring) : jsstring :=
  match parts with
  | [] => []
  | [p] => p
  | p :: rest => p ++ lit "," ++ join rest
  end.

(** [JSON.stringify(v)] without replacer or indentation.  A [Date] is
    replaced by what its [toJSON] returns: the ISO string, or [null] for a
    time value no [Date] can hold. *)
Fixpoint stringify (v : value) : jsstring :=
  match v with
  | VNull => lit "null"
  | VBool true => lit "true"
  | VBool false => lit "false"
  | VNumber lexeme => lexeme
  | VString s => QuoteJSONString s
  | VArray items => lit "[" ++ join (map stringify items) ++ lit "]"
  | VObject members =>
      lit "{" ++
      join (map (fun member =>
                   match member with
                   | (k, x) => QuoteJSONString k ++ lit ":" ++ stringify x
                   end) members) ++
      lit "}"
  | VDate t => if Date.time_in_range t then QuoteJSONString (Date.toISOString t) else lit "null"
  end.

(** *** Reading JSON text *)

Definition is_ws (c : N) : bool :=
  (c =? 32) || (c =? 9) || (c =? 10) || (c =? 13).

Fixpoint skip_ws (s : jsstring) : jsstring :=
  match s with
  | c :: r => if is_ws c then skip_ws r else s
  | [] => []
  end.

Definition hex_value (c : N) : option N :=
  if (48 <=? c) && (c <=? 57) then Some (c - 48)
  else if (97 <=? c) && (c <=? 102) then Some (c - 87)
  else if (65 <=? c) && (c <=? 70) then Some (c - 55)
  else None.

(** The character after a backslash, other than [u]. *)
Definition escape_unit (e : N) : option N :=
  if is_char "034" e then Some 34
  else if is_char "\" e then Some 92
  else if is_char "/" e then Some 47
  else if is_char "b" e then Some 8
  else if is_char "f" e then Some 12
  else if is_char "n" e then Some 10
  else if is_char "r" e then Some 13
  else if is_char "t" e then Some 9
  else None.

(** The rest of a string literal, after its opening quote: the string and
    what follows the closing quote. *)
Fixpoint read_string (s : jsstring) : option (jsstring * jsstring) :=
  match s with
  | [] => None
  | c :: r =>
      if is_char "034" c then Some ([], r)
      else if is_char "\" c then
        match r with
        | e :: r1 =>
            if is_char "u" e then
              match r1 with
              | h1 :: h2 :: h3 :: h4 :: r2 =>
                  let? a := hex_value h1 in
                  let? b := hex_value h2 in
                  let? c := hex_value h3 in
                  let? d := hex_value h4 in
                  let? (str, rest) := read_string r2 in
                  Some ((4096 * a + 256 * b + 16 * c + d) :: str, rest)
              | _ => None
              end
            else
              let? u := escape_unit e in
              let? (str, rest) := read_string r1 in
              Some (u :: str, rest)
        | [] => None
        end
      else if c <? 32 then None
      else
        let? (str, rest) := read_string r in
        Some (c :: str, rest)
  end.

Definition is_digit (c : N) : bool := (48 <=? c) && (c <=? 57).

Fixpoint span_digits (s : jsstring) : jsstring * jsstring :=
  match s with
  | c :: r =>
      if is_digit c
      then let (ds, rest) := span_digits r in (c :: ds, rest)
      else ([], s)
  | [] => ([], [])
  end.

(** One or more digits. *)
Definition read_digits1 (s : jsstring) : option (jsstring * jsstring) :=
  match span_digits s with
  | ([], _) => None
  | (ds, rest) => Some (ds, rest)
  end.

(** A number: an optional minus sign; a zero, or a non-zero digit and more
    digits; optionally a point and digits; optionally an exponent mark, a
    sign and digits. *)
Definition read_number (s : jsstring) : option (jsstring * jsstring) :=
  let (sign, s1) :=
    match s with
    | c :: r => if is_char "-" c then ([c], r) else ([], s)
    | [] => ([], s)
    end in
  let? (int, s2) :=
    match s1 with
    | c :: r =>
        if is_char "0" c then Some ([c], r)
        else if is_digit c then let (ds, rest) := span_digits r in Some (c :: ds, rest)
        else None
    | [] => None
    end in
  let? (frac, s3) :=
    match s2 with
    | c :: r =>
        if is_char "." c
        then let? (ds, rest) := read_digits1 r in Some (c :: ds, rest)
        else Some ([], s2)
    | [] => Some ([], s2)
    end in
  let? (exp, s4) :=
    match s3 with
    | c :: r =>
        if is_char "e" c || is_char "E" c then
          let (sg, r') :=
            match r with
            | c' :: r'' => if is_char "+" c' || is_char "-" c' then ([c'], r'') else ([], r)
            | [] => ([], r)
            end in
          let? (ds, rest) := read_digits1 r' in Some (c :: sg ++ ds, rest)
        else Some ([], s3)
    | [] => Some ([], s3)
    end in
  Some (sign ++ int ++ frac ++ exp, s4).

(** [s] without its prefix [p]. *)
Fixpoint strip_prefix (p s : jsstring) : option jsstring :=
  match p, s with
  | [], _ => Some s
  | a :: p', c :: s' => if a =? c then strip_prefix p' s' else None
  | _ :: _, [] => None
  end.

(** A value, the elements of an array after the first bracket, the members
    of an object after the first brace.  [fuel] bounds the calls in flight. *)
Fixpoint parse_value (fuel : nat) (s : jsstring) : option (value * jsstring) :=
  match fuel with
  | O => None
  | S fuel =>
      match skip_ws s with
      | [] => None
      | c :: r =>
          if is_char "034" c then
            let? (str, rest) := read_string r in Some (VString str, rest)
          else if is_char "[" c then
            match skip_ws r with
            | c' :: r' =>
                if is_char "]" c' then Some (VArray [], r')
                else let? (items, rest) := parse_items fuel r in Some (VArray items, rest)
            | [] => None
            end
          else if is_char "{" c then
            match skip_ws r with
            | c' :: r' =>
                if is_char "}" c' then Some (VObject [], r')
                else let? (members, rest) := parse_members fuel r in Some (VObject members, rest)
            | [] => None
            end
          else if is_char "t" c then
            let? rest := strip_prefix (lit "true") (c :: r) in Some (VBool true, rest)
          else if is_char "f" c then
            let? rest := strip_prefix (lit "false") (c :: r) in Some (VBool false, rest)
          else if is_char "n" c then
            let? rest := strip_prefix (lit "null") (c :: r) in Some (VNull, rest)
          else
            let? (lexeme, rest) := read_number (c :: r) in Some (VNumber lexeme, rest)
      end
  end
with parse_items (fuel : nat) (s : jsstring) : option (list value * jsstring) :=
  match fuel with
  | O => None
  | S fuel =>
      let? (x, r) := parse_value fuel s in
      match skip_ws r with
      | c :: r' =>
          if is_char "," c then
            let? (items, rest) := parse_items fuel r' in Some (x :: items, rest)
          else if is_char "]" c then Some ([x], r')
          else None
      | [] => None
      end
  end
with parse_members (fuel : nat) (s : jsstring)
  : option (list (jsstring * value) * jsstring) :=
  match fuel with
  | O => None
  | S fuel =>
      match skip_ws s with
      | c :: r =>
          if is_char "034" c then
            let? (k, r1) := read_string r in
            let? r2 := expect ":" (skip_ws r1) in
            let? (x, r3) := parse_value fuel r2 in
            match skip_ws r3 with
            | c' :: r4 =>
                if is_char "," c' then
                  let? (members, rest) := parse_members fuel r4 in
                  Some ((k, x) :: members, rest)
                else if is_char "}" c' then Some ([(k, x)], r4)
                else None
            | [] => None
            end
          else None
      | [] => None
      end
  end.

(** [JSON.parse(text)]: one value, then nothing but white space.  [None] is
    the [SyntaxError]. *)
Definition parse (text : jsstring) : option value :=
  let? (v, rest) := parse_value (S (List.length text)) text in
  match skip_ws rest with
  | [] => Some v
  | _ :: _ => None
  end.

End JSON.

(* ================================================================== *)
(** ** Web Storage *)

Module localStorage.

(** The storage area of the page: a string, or nothing, under each key.
    There is no quota: [setItem] always succeeds. *)
Definition Storage := jsstring -> option jsstring.

Definition getItem (key : jsstring) (st : Storage) : option jsstring := st key.

Definition setItem (key value : jsstring) (st : Storage) : Storage :=
  fun k => if str_eqb k key then Some value else st k.

End localStorage.

(* ================================================================== *)
(** ** Data model (App.tsx, lines 4-9) *)

(** The run-time shape of [createdAt].  The interface declares a [Date], and
    [createNewNote] stores one; a note read back from storage carries the
    string that [JSON.parse] produced.  [formatDate] accepts both through
    [new Date(date)].  [DateObj t] is a [Date] object of time value [t]
    (milliseconds since the epoch). *)
Inductive Timestamp : Type :=
| DateObj (t : Z)
| DateStr (s : jsstring).

Record Note : Type := mkNote {
  id : jsstring;
  title : jsstring;
  content : jsstring;
  createdAt : Timestamp
}.

(** The three [useState] cells of [App] (lines 12-18). *)
Record AppState : Type := mkApp {
  notes : list Note;
  activeNote : option Note;
  isEditing : bool
}.

(** First render: [notes] comes from the storage slot, nothing is selected. *)
Definition initial (loaded : list Note) : AppState :=
  {| notes := loaded; activeNote := None; isEditing := false |}.

(* ================================================================== *)
(** ** State setters and handlers *)

(** A call of one of the three state setters. *)
Inductive SetState : Type :=
| setNotes (l : list Note)
| setActiveNote (a : option Note)
| setIsEditing (b : bool).

Definition apply_set (s : AppState) (u : SetState) : AppState :=
  match u with
  | setNotes l => {| notes := l; activeNote := activeNote s; isEditing := isEditing s |}
  | setActiveNote a => {| notes := notes s; activeNote := a; isEditing := isEditing s |}
  | setIsEditing b => {| notes := notes s; activeNote := activeNote s; isEditing := b |}
  end.

(** A handler reads the state of the render it closes over and returns the
    setter calls it makes, in order. *)
Definition Handler := AppState -> list SetState.

(** The state of the next render: the queued updates applied in order. *)
Definition rerender (s : AppState) (calls : list SetState) : AppState :=
  fold_left apply_set calls s.

Definition run (h : Handler) (s : AppState) : AppState :=
  rerender s (h s).

(** [{...note, title: v}] and [{...note, content: v}]. *)
Definition with_title (n : Note) (v : jsstring) : Note :=
  {| id := id n; title := v; content := content n; createdAt := createdAt n |}.

Definition with_content (n : Note) (v : jsstring) : Note :=
  {| id := id n; title := title n; content := v; createdAt := createdAt n |}.

(** Lines 24-35.  [now] is the value [Date.now()] returns and [today] the
    time value of the object [new Date()] builds: two readings of the clock. *)
Definition newNote (now today : Z) : Note :=
  {| id := Number_toString now;
     title := lit "New Note";
     content := lit "";
     createdAt := DateObj today |}.

Definition createNewNote (now today : Z) : Handler := fun s =>
  [ setNotes (newNote now today :: notes s);
    setActiveNote (Some (newNote now today));
    setIsEditing true ].

(** Lines 37-44. *)
Definition updateNote (updatedNote : Note) : Handler := fun s =>
  let updatedNotes :=
    map (fun note => if str_eqb (id note) (id updatedNote)
                     then updatedNote else note) (notes s) in
  [ setNotes updatedNotes;
    setActiveNote (Some updatedNote);
    setIsEditing false ].

(** Lines 46-54.  [filteredNotes.length > 0 ? filteredNotes[0] : null] is the
    head of the list, if any. *)
Definition deleteNote (i : jsstring) : Handler := fun s =>
  let filteredNotes := filter (fun note => negb (str_eqb (id note) i)) (notes s) in
  setNotes filteredNotes ::
  match activeNote s with
  | Some a =>
      if str_eqb (id a) i
      then [ setActiveNote (match filteredNotes with
                            | first :: _ => Some first
                            | [] => None
                            end);
             setIsEditing false ]
      else []
  | None => []
  end.

(** Lines 92-95: click on a list item. *)
Definition selectNote (note : Note) : Handler := fun _ =>
  [ setActiveNote (Some note); setIsEditing false ].

(** Line 160: the Edit button. *)
Definition beginEdit : Handler := fun _ =>
  [ setIsEditing true ].

(** Line 129: the title input, rendered for the active note [a]. *)
Definition editTitle (a : Note) (v : jsstring) : Handler := fun _ =>
  [ setActiveNote (Some (with_title a v)) ].

(** Line 173: the content textarea, rendered for the active note [a]. *)
Definition editContent (a : Note) (v : jsstring) : Handler := fun _ =>
  [ setActiveNote (Some (with_content a v)) ].

(** Lines 148-151: the Cancel button, rendered for the active note [a].
    [notes.find(...) || null]: a note object is truthy, [undefined] is not. *)
Definition cancelEdit (a : Note) : Handler := fun s =>
  [ setActiveNote (find (fun note => str_eqb (id note) (id a)) (notes s));
    setIsEditing false ].

(* ================================================================== *)
(** ** The rendered controls *)

(** What the user can do.  A list item and its delete button are named by
    their position in the rendered list. *)
Inductive Event : Type :=
| ClickCreate (now today : Z)
| ClickNote (i : nat)
| ClickDelete (i : nat)
| ClickEdit
| TypeTitle (v : jsstring)
| TypeContent (v : jsstring)
| ClickSave
| ClickCancel.

(** The handler behind a control, when the render of [s] contains that
    control (lines 64-201): the create button always exists, a list item
    exists per note, the detail pane exists only for an active note and shows
    either the Edit button or the editing controls. *)
Definition control (s : AppState) (e : Event) : option Handler :=
  match e with
  | ClickCreate now today => Some (createNewNote now today)
  | ClickNote i =>
      match nth_error (notes s) i with
      | Some note => Some (selectNote note)
      | None => None
      end
  | ClickDelete i =>
      match nth_error (notes s) i with
      | Some note => Some (deleteNote (id note))
      | None => None
      end
  | ClickEdit =>
      match activeNote s with
      | Some _ => if isEditing s then None else Some beginEdit
      | None => None
      end
  | TypeTitle v =>
      match activeNote s with
      | Some a => if isEditing s then Some (editTitle a v) else None
      | None => None
      end
  | TypeContent v =>
      match activeNote s with
      | Some a => if isEditing s then Some (editContent a v) else None
      | None => None
      end
  | ClickSave =>
      match activeNote s with
      | Some a => if isEditing s then Some (updateNote a) else None
      | None => None
      end
  | ClickCancel =>
      match activeNote s with
      | Some a => if isEditing s then Some (cancelEdit a) else None
      | None => None
      end
  end.

(** One interaction: [None] when the control is not on screen. *)
Definition dispatch (s : AppState) (e : Event) : option AppState :=
  match control s e with
  | Some h => Some (run h s)
  | None => None
  end.

(** States the user can reach from the first render. *)
Inductive reachable (loaded : list Note) : AppState -> Prop :=
| reach_initial : reachable loaded (initial loaded)
| reach_step : forall s e s',
    reachable loaded s -> dispatch s e = Some s' -> reachable loaded s'.

(** [N] consecutive creations; each pair holds the two clock readings. *)
Fixpoint creates (clock : list (Z * Z)) (s : AppState) : AppState :=
  match clock with
  | [] => s
  | (now, today) :: later => creates later (run (createNewNote now today) s)
  end.

(** A run of edits of the draft. *)
Inductive DraftEdit : Type :=
| EditTitle (v : jsstring)
| EditContent (v : jsstring).

Definition draft_event (d : DraftEdit) : Event :=
  match d with
  | EditTitle v => TypeTitle v
  | EditContent v => TypeContent v
  end.

(** A sequence of interactions, stopping at [None] if one is impossible. *)
Fixpoint interact (s : AppState) (es : list Event) : option AppState :=
  match es with
  | [] => Some s
  | e :: later =>
      match dispatch s e with
      | Some s' => interact s' later
      | None => None
      end
  end.

(* ================================================================== *)
(** ** Persistence (App.tsx, lines 12-15 and 20-22) *)

(** The JavaScript object behind a [Note]: its properties in creation order,
    which the literal of [createNewNote] fixes and the object spreads keep. *)
Definition js_of_timestamp (ts : Timestamp) : JSON.value :=
  match ts with
  | DateObj t => JSON.VDate t
  | DateStr s => JSON.VString s
  end.

Definition js_of_note (n : Note) : JSON.value :=
  JSON.VObject [ (lit "id", JSON.VString (id n));
                 (lit "title", JSON.VString (title n));
                 (lit "content", JSON.VString (content n));
                 (lit "createdAt", js_of_timestamp (createdAt n)) ].

Definition js_of_notes (l : list Note) : JSON.value :=
  JSON.VArray (map js_of_note l).

(** The way back, for what [JSON.parse] can build: an object with the four
    properties, [createdAt] being a string. *)
Definition note_of_js (v : JSON.value) : option Note :=
  match v with
  | JSON.VObject [ (k1, JSON.VString a); (k2, JSON.VString b);
                   (k3, JSON.VString c); (k4, JSON.VString d) ] =>
      if str_eqb k1 (lit "id") && str_eqb k2 (lit "title")
         && str_eqb k3 (lit "content") && str_eqb k4 (lit "createdAt")
      then Some {| id := a; title := b; content := c; createdAt := DateStr d |}
      else None
  | _ => None
  end.

Fixpoint all_some {A} (l : list (option A)) : option (list A) :=
  match l with
  | [] => Some []
  | x :: r =>
      let? a := x in
      let? r' := all_some r in
      Some (a :: r')
  end.

Definition notes_of_js (v : JSON.value) : option (list Note) :=
  match v with
  | JSON.VArray items => all_some (map note_of_js items)
  | _ => None
  end.

(** The name of the storage slot. *)
Definition slot : jsstring := lit "notes".

(** What the initializer of [notes] makes of the slot (lines 12-15): the
    notes; a [SyntaxError] out of [JSON.parse]; or a value that is not an
    array of note objects, which the component takes without a check and
    which this model does not follow. *)
Inductive Loaded : Type :=
| LoadedNotes (l : list Note)
| LoadSyntaxError
| LoadedOther (v : JSON.value).

(** [savedNotes ? JSON.parse(savedNotes) : []]: [null] and the empty string
    are falsy. *)
Definition load (st : localStorage.Storage) : Loaded :=
  match localStorage.getItem slot st with
  | None => LoadedNotes []
  | Some [] => LoadedNotes []
  | Some (c :: text) =>
      match JSON.parse (c :: text) with
      | None => LoadSyntaxError
      | Some v =>
          match notes_of_js v with
          | Some l => LoadedNotes l
          | None => LoadedOther v
          end
      end
  end.

(** The effect (lines 20-22). *)
Definition save (l : list Note) (st : localStorage.Storage) : localStorage.Storage :=
  localStorage.setItem slot (JSON.stringify (js_of_notes l)) st.

(** The component together with the storage area. *)
Record World : Type := mkWorld {
  ui : AppState;
  storage : localStorage.Storage
}.

(** Mounting: the first render and, after it, the effect. *)
Definition mount (st : localStorage.Storage) : option World :=
  match load st with
  | LoadedNotes l => Some {| ui := initial l; storage := save l st |}
  | _ => None
  end.

(** The effect depends on [notes]: it runs again after a render for which
    [setNotes] was called, always with a fresh array. *)
Definition replaces_notes (calls : list SetState) : bool :=
  existsb (fun u => match u with setNotes _ => true | _ => false end) calls.

(** One interaction, the render it causes and the effect of that render. *)
Definition act (w : World) (e : Event) : option World :=
  match control (ui w) e with
  | Some h =>
      let calls := h (ui w) in
      let s' := rerender (ui w) calls in
      Some {| ui := s';
              storage := if replaces_notes calls
                         then save (notes s') (storage w)
                         else storage w |}
  | None => None
  end.

(** A session: interactions one after the other, as long as they are
    possible. *)
Fixpoint session (w : World) (es : list Event) : option World :=
  match es with
  | [] => Some w
  | e :: later => let? w' := act w e in session w' later
  end.

(** Worlds the user can reach from a stored state. *)
Inductive running (st : localStorage.Storage) : World -> Prop :=
| run_mount : forall w, mount st = Some w -> running st w
| run_act : forall w e w', running st w -> act w e = Some w' -> running st w'.

(** [new Date(date)] of [formatDate] (line 57): the time value of the date,
    [None] for an invalid one. *)
Definition timeValue (ts : Timestamp) : option Z :=
  match ts with
  | DateObj t => Date.TimeClip t
  | DateStr s => Date.parse s
  end.

(* ================================================================== *)
(** ** The view (App.tsx, lines 56-62 and 64-201) *)

(** Short month names of the [en-US] locale. *)
Definition month_short (m : Z) : jsstring :=
  if m =? 0 then lit "Jan"
  else if m =? 1 then lit "Feb"
  else if m =? 2 then lit "Mar"
  else if m =? 3 then lit "Apr"
  else if m =? 4 then lit "May"
  else if m =? 5 then lit "Jun"
  else if m =? 6 then lit "Jul"
  else if m =? 7 then lit "Aug"
  else if m =? 8 then lit "Sep"
  else if m =? 9 then lit "Oct"
  else if m =? 10 then lit "Nov"
  else lit "Dec".

(** One entry of the rendered list (lines 87-113). *)
Record ListItem : Type := mkItem {
  item_key : jsstring;
  item_highlighted : bool;
  item_title : jsstring;
  item_date : option jsstring
}.

(** The list pane: the hint for an empty collection, or the items
    (lines 80-116). *)
Inductive Sidebar : Type :=
| NoNotesYet
| NoteList (items : list ListItem).

(** The detail pane (lines 122-198): the prompt when nothing is selected;
    the title and the content, or the hint for an empty content; the two
    input fields. *)
Inductive DetailPane : Type :=
| SelectPrompt
| ReadPane (heading : jsstring) (body : option jsstring)
| EditPane (titleInput contentInput : jsstring).

Record View : Type := mkView {
  sidebar : Sidebar;
  pane : DetailPane
}.

Section Locale.

(** The time zone of the browser: the offset of local time from UTC, in
    milliseconds, at each instant. *)
Variable LocalTZA : Z -> Z.

(** [toLocaleDateString('en-US', {year: 'numeric', month: 'short', day:
    'numeric'})] of a valid date (ECMA-402): month, day and year of the
    local date as in [Jan 5, 2024]; a year before 1 is counted backwards. *)
Definition toLocaleDateString (t : Z) : jsstring :=
  let local := t + LocalTZA t in
  let y := Date.YearFromTime local in
  month_short (Date.MonthFromTime local) ++ lit " " ++
  Number_toString (Date.DateFromTime local) ++ lit ", " ++
  Number_toString (if y <=? 0 then 1 - y else y).

(** Lines 56-62.  [new Date(date)] copies a [Date] and parses a string; an
    invalid date prints as [Invalid Date].  [None]: a string outside the
    format [Date.parse] is modelled for, about which nothing is said. *)
Definition formatDate (date : Timestamp) : option jsstring :=
  match date with
  | DateObj t =>
      Some (if Date.time_in_range t then toLocaleDateString t
            else lit "Invalid Date")
  | DateStr s =>
      match Date.parse s with
      | Some t => Some (toLocaleDateString t)
      | None => None
      end
  end.

(** Lines 87-100: key, highlight of the active note, title, date. *)
Definition render_item (s : AppState) (note : Note) : ListItem :=
  {| item_key := id note;
     item_highlighted :=
       match activeNote s with
       | Some a => str_eqb (id a) (id note)
       | None => false
       end;
     item_title := title note;
     item_date := formatDate (createdAt note) |}.

(** Lines 64-201.  [activeNote.content || ...]: the empty string is falsy. *)
Definition render (s : AppState) : View :=
  {| sidebar :=
       match notes s with
       | [] => NoNotesYet
       | _ :: _ => NoteList (map (render_item s) (notes s))
       end;
     pane :=
       match activeNote s with
       | None => SelectPrompt
       | Some a =>
           if isEditing s then EditPane (title a) (content a)
           else ReadPane (title a)
                         (match content a with
                          | [] => None
                          | _ :: _ => Some (content a)
                          end)
       end |}.

End Locale.

(* ================================================================== *)
(** ** Vocabulary of the statements *)

(** A literal in which the apostrophe stands for the double quote. *)
Definition dq (s : string) : jsstring :=
  map (fun c => if is_char "'" c then 34%N else c) (lit s).

(** The notes made by a run of creations, oldest first. *)
Definition created (clock : list (Z * Z)) : list Note :=
  map (fun r => newNote (fst r) (snd r)) clock.

(** What [updateNote] does to one entry. *)
Definition replace_by_id (d : Note) (note : Note) : Note :=
  if str_eqb (id note) (id d) then d else note.

(** [p] holds on the [2^k] integers from [lo] on. *)
Fixpoint all_from (k : nat) (p : Z -> bool) (lo : Z) : bool :=
  match k with
  | O => p lo
  | S k' => all_from k' p lo && all_from k' p (lo + 2 ^ Z.of_nat k')
  end.

(** The month found for day [d] of a year brackets [d]. *)
Definition month_ok (leap : bool) (d : Z) : bool :=
  if d <? (if leap then 366 else 365)
  then (0 <=? Date.MonthFromDay leap d) && (Date.MonthFromDay leap d <=? 11)
       && (Date.MonthStart leap (Date.MonthFromDay leap d) <=? d)
       && (d <? Date.MonthStart leap (Date.MonthFromDay leap d + 1))
  else true.

(** The events behind which [notes] is replaced. *)
Definition mutation (e : Event) : bool :=
  match e with
  | ClickCreate _ _ | ClickSave | ClickDelete _ => true
  | _ => false
  end.

(** A [Date] object holds a time value in range. *)
Definition valid_timestamp (ts : Timestamp) : bool :=
  match ts with
  | DateObj t => Date.time_in_range t
  | DateStr _ => true
  end.

(** The clock reading behind [new Date()] is a time a [Date] can hold. *)
Definition clock_in_range (e : Event) : bool :=
  match e with
  | ClickCreate _ today => Date.time_in_range today
  | _ => true
  end.

(** Every [Date] in the state is valid. *)
Definition dates_valid (s : AppState) : Prop :=
  Forall (fun n => valid_timestamp (createdAt n) = true) (notes s) /\
  (forall a, activeNote s = Some a -> valid_timestamp (createdAt a) = true).

(** A note as it comes back from storage. *)
Definition stored_timestamp (ts : Timestamp) : Timestamp :=
  match ts with
  | DateObj t => DateStr (Date.toISOString t)
  | DateStr s => DateStr s
  end.

Definition stored (n : Note) : Note :=
  {| id := id n; title := title n; content := content n;
     createdAt := stored_timestamp (createdAt n) |}.

(** The value [JSON.parse] reads back for a note, valid date or not. *)
Definition parsed_timestamp (ts : Timestamp) : JSON.value :=
  match ts with
  | DateObj t =>
      if Date.time_in_range t then JSON.VString (Date.toISOString t) else JSON.VNull
  | DateStr s => JSON.VString s
  end.

Definition parsed_note (n : Note) : JSON.value :=
  JSON.VObject [ (lit "id", JSON.VString (id n));
                 (lit "title", JSON.VString (title n));
                 (lit "content", JSON.VString (content n));
                 (lit "createdAt", parsed_timestamp (createdAt n)) ].

(** With [fuel], the text [sx] is read as [x] whatever follows it. *)
Definition parses_as (fuel : nat) (sx : jsstring) (x : JSON.value) : Prop :=
  forall tail, JSON.parse_value fuel (sx ++ tail) = Some (x, tail).


(** A creation gets an id that the collection does not hold yet. *)
Definition fresh_for (s : AppState) (e : Event) : bool :=
  match e with
  | ClickCreate now _ =>
      negb (existsb (str_eqb (Number_toString now)) (map id (notes s)))
  | _ => true
  end.

(** The active note has the id [i]. *)
Definition active_has_id (s : AppState) (i : jsstring) : bool :=
  match activeNote s with
  | Some a => str_eqb (id a) i
  | None => false
  end.

(** The first entry, if any. *)
Definition first_of (l : list Note) : option Note :=
  match l with
  | first :: _ => Some first
  | [] => None
  end.

(** The entries whose id is not [i]. *)
Definition without_id (i : jsstring) (l : list Note) : list Note :=
  filter (fun note => negb (str_eqb (id note) i)) l.


(* ================================================================== *)
(** * Properties *)

(** ** Strings and identifiers *)

Lemma str_eqb_eq (a b : jsstring) : str_eqb a b = true <-> a = b.
Proof.
  revert b; induction a as [|x a IH]; intros [|y b]; simpl;
    try (split; [discriminate | congruence]); try tauto.
  rewrite andb_true_iff, N.eqb_eq, IH. split.
  - intros [-> ->]; reflexivity.
  - intros E; injection E; auto.
Qed.

Lemma str_eqb_refl (a : jsstring) : str_eqb a a = true.
Proof. apply str_eqb_eq; reflexivity. Qed.

Lemma str_eqb_neq (a b : jsstring) : str_eqb a b = false <-> a <> b.
Proof.
  rewrite <- str_eqb_eq. destruct (str_eqb a b); split; congruence.
Qed.

Lemma lit_inj (s t : string) : lit s = lit t -> s = t.
Proof.
  unfold lit. revert t; induction s as [|c s IH]; intros [|d t]; simpl;
    try discriminate; auto.
  intros E; injection E as Ec Es.
  f_equal; [ | auto ].
  rewrite <- (ascii_N_embedding c), <- (ascii_N_embedding d), Ec; reflexivity.
Qed.

Lemma to_int_not_nil (z : Z) :
  Z.to_int z <> Decimal.Pos Decimal.Nil /\ Z.to_int z <> Decimal.Neg Decimal.Nil.
Proof.
  destruct z as [|p|p]; simpl; split; try discriminate;
    intros E; injection E as E;
    (assert (H : Pos.of_uint (Pos.to_uint p) = N.pos p)
       by apply DecimalPos.Unsigned.of_to);
    rewrite E in H; discriminate H.
Qed.

(** Distinct clock readings print differently. *)
Lemma Number_toString_inj (x y : Z) :
  Number_toString x = Number_toString y -> x = y.
Proof.
  unfold Number_toString; intros E. apply lit_inj in E.
  apply DecimalZ.to_int_inj.
  assert (Hx := NilZero.isi (Z.to_int x) (proj1 (to_int_not_nil x)) (proj2 (to_int_not_nil x))).
  assert (Hy := NilZero.isi (Z.to_int y) (proj1 (to_int_not_nil y)) (proj2 (to_int_not_nil y))).
  rewrite E in Hx. congruence.
Qed.

(** ** Handlers, one render later *)

Lemma run_createNewNote now today s :
  run (createNewNote now today) s =
  {| notes := newNote now today :: notes s;
     activeNote := Some (newNote now today);
     isEditing := true |}.
Proof. reflexivity. Qed.

Lemma run_updateNote d s :
  run (updateNote d) s =
  {| notes := map (fun note => if str_eqb (id note) (id d) then d else note) (notes s);
     activeNote := Some d;
     isEditing := false |}.
Proof. reflexivity. Qed.

Lemma notes_run_updateNote d s :
  notes (run (updateNote d) s) = map (replace_by_id d) (notes s).
Proof. reflexivity. Qed.

Lemma notes_run_deleteNote i s :
  notes (run (deleteNote i) s) =
  filter (fun note => negb (str_eqb (id note) i)) (notes s).
Proof.
  unfold run, deleteNote.
  destruct (activeNote s) as [a|]; [destruct (str_eqb (id a) i)|]; reflexivity.
Qed.

(** ** Creation *)

Lemma notes_creates (clock : list (Z * Z)) (s : AppState) :
  notes (creates clock s) = rev (created clock) ++ notes s.
Proof.
  revert s; induction clock as [|[now today] clock IH]; intros s; simpl; auto.
  rewrite IH, run_createNewNote; simpl.
  rewrite <- app_assoc; reflexivity.
Qed.

Lemma ids_created (clock : list (Z * Z)) :
  map id (created clock) = map Number_toString (map fst clock).
Proof.
  unfold created; rewrite !map_map; reflexivity.
Qed.

Lemma NoDup_map_inj {A B} (f : A -> B) (l : list A) :
  (forall x y, f x = f y -> x = y) -> NoDup l -> NoDup (map f l).
Proof.
  intros Hinj; induction 1 as [|x l Hx Hl IH]; simpl; constructor; auto.
  rewrite in_map_iff; intros (y & E & Hy). apply Hinj in E; subst; auto.
Qed.

Lemma NoDup_app_intro {A} (l1 l2 : list A) :
  NoDup l1 -> NoDup l2 -> (forall x, In x l1 -> ~ In x l2) -> NoDup (l1 ++ l2).
Proof.
  induction 1 as [|x l1 Hx Hl IH]; simpl; intros H2 Hd; auto.
  constructor.
  - rewrite in_app_iff; intros [H|H]; [auto | apply (Hd x); auto].
  - apply IH; auto.
Qed.

(** C8.  [create()] builds a note titled "New Note" with empty content and
    the current time as creation timestamp, puts it in front of the
    collection, makes it the active note and turns editing on; the create
    button is on screen in every state. *)
Theorem create_enters_editing (now today : Z) (s : AppState) :
  let n := newNote now today in
  let s' := run (createNewNote now today) s in
  dispatch s (ClickCreate now today) = Some s' /\
  title n = lit "New Note" /\
  content n = [] /\
  createdAt n = DateObj today /\
  id n = Number_toString now /\
  notes s' = n :: notes s /\
  activeNote s' = Some n /\
  isEditing s' = true.
Proof. cbv zeta; repeat split. Qed.

(** C1 (as amended).  [N] consecutive creations add [N] entries, newest
    first, in front of the old collection; the ids of the result are
    pairwise distinct when the old ids are, the [Date.now()] readings of the
    creations are pairwise distinct, and none of them prints as an old id. *)
Theorem creates_prepend_distinct (clock : list (Z * Z)) (s : AppState) :
  length (notes (creates clock s)) = (length clock + length (notes s))%nat /\
  notes (creates clock s) = rev (created clock) ++ notes s /\
  (NoDup (map id (notes s)) ->
   NoDup (map fst clock) ->
   (forall now, In now (map fst clock) ->
                ~ In (Number_toString now) (map id (notes s))) ->
   NoDup (map id (notes (creates clock s)))).
Proof.
  split; [ | split ].
  - rewrite notes_creates, length_app, length_rev.
    unfold created; rewrite length_map; reflexivity.
  - apply notes_creates.
  - intros Hold Hclock Hfresh.
    rewrite notes_creates, map_app, map_rev, ids_created.
    apply NoDup_app_intro; auto.
    + apply NoDup_rev, NoDup_map_inj; auto using Number_toString_inj.
    + intros x Hx. apply in_rev, in_map_iff in Hx.
      destruct Hx as (now & <- & Hnow). auto.
Qed.

Lemma creates_prepend_distinct_witness :
  NoDup (map id (notes (creates [(1700000000000, 1700000000000);
                                 (1700000000001, 1700000000002)]
                                (initial [newNote 5 5])))).
Proof.
  apply (creates_prepend_distinct
           [(1700000000000, 1700000000000); (1700000000001, 1700000000002)]
           (initial [newNote 5 5])).
  - simpl. constructor; [ intros [] | constructor ].
  - simpl. constructor; [ | constructor; [ intros [] | constructor ] ].
    intros [E | []]; discriminate E.
  - simpl. intros now [<- | [<- | []]] [E | []]; vm_compute in E; discriminate E.
Defined.

(** C1 as written fails: two creations served by the same [Date.now()]
    reading give two notes with one id; so does a creation whose reading is
    the id of a note already in the collection; and a collection that starts
    with a repeated id keeps it. *)
Lemma creates_same_reading_same_id :
  (let s := creates [(1700000000000, 1700000000000);
                     (1700000000000, 1700000000001)] (initial []) in
   List.length (notes s) = 2%nat /\ ~ NoDup (map id (notes s))) /\
  (let s := creates [(1700000000000, 1700000000000)]
                    (initial [stored (newNote 1700000000000 1600000000000)]) in
   List.length (notes s) = 2%nat /\ ~ NoDup (map id (notes s))) /\
  (let s := creates [(1700000000000, 1700000000000)]
                    (initial [newNote 5 5; newNote 5 6]) in
   List.length (notes s) = 3%nat /\ ~ NoDup (map id (notes s))).
Proof.
  cbv zeta; repeat split; intros H.
  - inversion H as [|x l Hx Hl]; subst. apply Hx. left. reflexivity.
  - inversion H as [|x l Hx Hl]; subst. apply Hx. left. reflexivity.
  - inversion H as [|x l Hx Hl]; subst.
    inversion Hl as [|y l' Hy Hl']; subst. apply Hy. left. reflexivity.
Qed.

(** ** Saving the draft *)

Lemma replace_by_id_hit d n : id n = id d -> replace_by_id d n = d.
Proof. unfold replace_by_id; intros ->; rewrite str_eqb_refl; reflexivity. Qed.

Lemma replace_by_id_miss d n : id n <> id d -> replace_by_id d n = n.
Proof.
  unfold replace_by_id; intros H; apply str_eqb_neq in H; rewrite H; reflexivity.
Qed.

Lemma map_replace_absent d l :
  ~ In (id d) (map id l) -> map (replace_by_id d) l = l.
Proof.
  induction l as [|n l IH]; simpl; intros H; auto.
  rewrite replace_by_id_miss, IH; auto.
Qed.

Lemma in_ids_split (i : jsstring) (l : list Note) :
  In i (map id l) ->
  exists before old after, l = before ++ old :: after /\ id old = i.
Proof.
  rewrite in_map_iff; intros (old & E & Hin).
  destruct (in_split _ _ Hin) as (before & after & ->); eauto.
Qed.

Lemma NoDup_ids_split before (old : Note) after :
  NoDup (map id (before ++ old :: after)) ->
  ~ In (id old) (map id before) /\ ~ In (id old) (map id after).
Proof.
  rewrite map_app; simpl; intros H.
  apply NoDup_remove_2 in H. rewrite in_app_iff in H. tauto.
Qed.

(** Typing a title while editing only rewrites the draft. *)
Lemma dispatch_TypeTitle s d X :
  activeNote s = Some d -> isEditing s = true ->
  dispatch s (TypeTitle X) =
  Some {| notes := notes s; activeNote := Some (with_title d X); isEditing := true |}.
Proof.
  intros Ha He; unfold dispatch; simpl; rewrite Ha, He; simpl.
  unfold run, rerender; simpl; rewrite He; reflexivity.
Qed.

Lemma dispatch_TypeContent s d X :
  activeNote s = Some d -> isEditing s = true ->
  dispatch s (TypeContent X) =
  Some {| notes := notes s; activeNote := Some (with_content d X); isEditing := true |}.
Proof.
  intros Ha He; unfold dispatch; simpl; rewrite Ha, He; simpl.
  unfold run, rerender; simpl; rewrite He; reflexivity.
Qed.

Lemma dispatch_ClickSave s d :
  activeNote s = Some d -> isEditing s = true ->
  dispatch s ClickSave = Some (run (updateNote d) s).
Proof.
  intros Ha He; unfold dispatch; simpl; rewrite Ha, He; reflexivity.
Qed.

(** C2.  While a note is being edited and the collection holds an entry
    with the draft's id, typing the title [X] and saving puts the draft (with
    title [X], the other fields as they were) in place of every entry of that
    id and leaves every other entry, the length and the order alone; the
    draft is then the active note and editing is off.  With distinct ids the
    replaced entry is the only one. *)
Theorem save_replaces_entry_by_id (s : AppState) (d : Note) (X : jsstring) :
  activeNote s = Some d ->
  isEditing s = true ->
  In (id d) (map id (notes s)) ->
  let d' := with_title d X in
  exists s',
    interact s [TypeTitle X; ClickSave] = Some s' /\
    title d' = X /\ id d' = id d /\ content d' = content d /\
    createdAt d' = createdAt d /\
    notes s' = map (replace_by_id d') (notes s) /\
    length (notes s') = length (notes s) /\
    (forall k n, nth_error (notes s) k = Some n ->
       (id n = id d -> nth_error (notes s') k = Some d') /\
       (id n <> id d -> nth_error (notes s') k = Some n)) /\
    In d' (notes s') /\
    activeNote s' = Some d' /\
    isEditing s' = false /\
    (NoDup (map id (notes s)) ->
     exists before old after,
       notes s = before ++ old :: after /\ id old = id d /\
       notes s' = before ++ d' :: after).
Proof.
  intros Ha He Hin d'.
  exists (run (updateNote d') {| notes := notes s; activeNote := Some d'; isEditing := true |}).
  split.
  { simpl. rewrite (dispatch_TypeTitle s d X Ha He).
    rewrite (dispatch_ClickSave _ d'); reflexivity. }
  rewrite notes_run_updateNote, run_updateNote; simpl.
  repeat split; auto.
  - apply length_map.
  - intros E. rewrite nth_error_map, H; simpl. rewrite replace_by_id_hit; auto.
  - intros E. rewrite nth_error_map, H; simpl. rewrite replace_by_id_miss; auto.
  - destruct (in_ids_split _ _ Hin) as (before & old & after & -> & E).
    rewrite map_app; simpl. rewrite (replace_by_id_hit d' old E).
    apply in_or_app; right; left; reflexivity.
  - intros Hnd.
    destruct (in_ids_split _ _ Hin) as (before & old & after & E & Hold).
    exists before, old, after. repeat split; auto.
    rewrite E in Hnd |- *. apply NoDup_ids_split in Hnd. rewrite Hold in Hnd.
    rewrite map_app; simpl.
    rewrite (replace_by_id_hit d' old Hold).
    rewrite !map_replace_absent; tauto.
Qed.

Lemma save_replaces_entry_by_id_witness :
  exists s',
    interact {| notes := [newNote 2 2; newNote 1 1];
                activeNote := Some (newNote 1 1); isEditing := true |}
             [TypeTitle (lit "X"); ClickSave] = Some s' /\
    notes s' = [newNote 2 2; with_title (newNote 1 1) (lit "X")].
Proof.
  destruct (save_replaces_entry_by_id
              {| notes := [newNote 2 2; newNote 1 1];
                 activeNote := Some (newNote 1 1); isEditing := true |}
              (newNote 1 1) (lit "X") eq_refl eq_refl)
    as (s' & Hrun & _ & _ & _ & _ & Hnotes & _).
  - simpl. right; left; reflexivity.
  - exists s'. split; [ exact Hrun | rewrite Hnotes; reflexivity ].
Defined.

(** C10.  Saving a draft whose id is not in the collection changes no
    entry and adds none: the collection stays as it is, the draft becomes the
    active note and editing is turned off. *)
Theorem updateNote_unknown_id (s : AppState) (d : Note) :
  ~ In (id d) (map id (notes s)) ->
  notes (run (updateNote d) s) = notes s /\
  ~ In (id d) (map id (notes (run (updateNote d) s))) /\
  activeNote (run (updateNote d) s) = Some d /\
  isEditing (run (updateNote d) s) = false.
Proof.
  intros H. rewrite notes_run_updateNote, run_updateNote; simpl.
  rewrite map_replace_absent; auto.
Qed.

Lemma updateNote_unknown_id_witness :
  notes (run (updateNote (newNote 3 3)) (initial [newNote 2 2; newNote 1 1])) =
  [newNote 2 2; newNote 1 1].
Proof.
  apply (updateNote_unknown_id (initial [newNote 2 2; newNote 1 1]) (newNote 3 3)).
  simpl. intros [E | [E | []]]; vm_compute in E; discriminate E.
Defined.

(** ** Editing and cancelling *)

(** Typing into the draft keeps the collection and the draft's id. *)
Lemma interact_draft_edits (edits : list DraftEdit) (later : list Event) :
  forall s a,
    activeNote s = Some a -> isEditing s = true ->
    exists a',
      id a' = id a /\ createdAt a' = createdAt a /\
      interact s (map draft_event edits ++ later) =
      interact {| notes := notes s; activeNote := Some a'; isEditing := true |} later.
Proof.
  induction edits as [|e edits IH]; intros s a Ha He.
  - exists a. repeat split. simpl. destruct s as [ns an ed]; simpl in *; subst; reflexivity.
  - destruct e as [v|v]; simpl.
    + rewrite (dispatch_TypeTitle s a v Ha He).
      destruct (IH {| notes := notes s; activeNote := Some (with_title a v); isEditing := true |}
                   (with_title a v) eq_refl eq_refl) as (a' & Hid & Hc & Hi).
      exists a'. repeat split; auto.
    + rewrite (dispatch_TypeContent s a v Ha He).
      destruct (IH {| notes := notes s; activeNote := Some (with_content a v); isEditing := true |}
                   (with_content a v) eq_refl eq_refl) as (a' & Hid & Hc & Hi).
      exists a'. repeat split; auto.
Qed.

(** C3.  While a note is being edited, any number of title and content
    changes leaves the collection untouched, and Cancel after them leaves it
    untouched too, reads the active note back from the collection by its id
    and turns editing off.  Hence, from a state showing a note, Edit, the
    changes and Cancel leave the collection exactly as it was before Edit. *)
Theorem cancel_restores_collection (s : AppState) (a : Note) (edits : list DraftEdit) :
  activeNote s = Some a ->
  (isEditing s = true ->
   (exists s1, interact s (map draft_event edits) = Some s1 /\
               notes s1 = notes s /\ isEditing s1 = true) /\
   (exists s', interact s (map draft_event edits ++ [ClickCancel]) = Some s' /\
               notes s' = notes s /\
               activeNote s' = find (fun note => str_eqb (id note) (id a)) (notes s) /\
               isEditing s' = false)) /\
  (isEditing s = false ->
   exists s', interact s (ClickEdit :: map draft_event edits ++ [ClickCancel]) = Some s' /\
              notes s' = notes s /\
              activeNote s' = find (fun note => str_eqb (id note) (id a)) (notes s) /\
              isEditing s' = false).
Proof.
  intros Ha.
  assert (Hcancel : forall s0, activeNote s0 = Some a -> isEditing s0 = true ->
            exists s', interact s0 (map draft_event edits ++ [ClickCancel]) = Some s' /\
                       notes s' = notes s0 /\
                       activeNote s' = find (fun note => str_eqb (id note) (id a)) (notes s0) /\
                       isEditing s' = false).
  { intros s0 Ha0 He0.
    destruct (interact_draft_edits edits [ClickCancel] s0 a Ha0 He0)
      as (a' & Hid & _ & Hrun).
    rewrite Hrun. simpl.
    eexists; split; [ reflexivity | ].
    unfold run, cancelEdit; simpl. rewrite Hid. repeat split. }
  split.
  - intros He. split; [ | apply Hcancel; assumption ].
    destruct (interact_draft_edits edits [] s a Ha He) as (a' & _ & _ & Hrun).
    rewrite app_nil_r in Hrun. rewrite Hrun.
    eexists; split; [ reflexivity | ]. split; reflexivity.
  - intros He.
    cbn [interact]. unfold dispatch at 1; cbn [control]. rewrite Ha, He.
    destruct (Hcancel (run beginEdit s) Ha eq_refl) as (s' & Hrun & Hn & Hact & Hed).
    exists s'. repeat split; assumption.
Qed.

Lemma cancel_restores_collection_witness :
  exists s',
    interact {| notes := [newNote 2 2; newNote 1 1];
                activeNote := Some (newNote 1 1); isEditing := false |}
             (ClickEdit ::
              map draft_event [EditTitle (lit "a"); EditContent (lit "b")] ++
              [ClickCancel]) = Some s' /\
    notes s' = [newNote 2 2; newNote 1 1].
Proof.
  destruct (proj2 (cancel_restores_collection
              {| notes := [newNote 2 2; newNote 1 1];
                 activeNote := Some (newNote 1 1); isEditing := false |}
              (newNote 1 1) [EditTitle (lit "a"); EditContent (lit "b")]
              eq_refl) eq_refl) as (s' & Hrun & Hnotes & _).
  exists s'; split; [ exact Hrun | exact Hnotes ].
Defined.

(** ** Deleting *)

Lemma filter_other_ids_absent (i : jsstring) (l : list Note) :
  ~ In i (map id l) ->
  filter (fun note => negb (str_eqb (id note) i)) l = l.
Proof.
  induction l as [|n l IH]; simpl; intros H; auto.
  assert (E : str_eqb (id n) i = false) by (apply str_eqb_neq; tauto).
  rewrite E; simpl. rewrite IH; tauto.
Qed.

Lemma filter_other_ids_In (i : jsstring) (l : list Note) (n : Note) :
  In n (filter (fun note => negb (str_eqb (id note) i)) l) <->
  In n l /\ id n <> i.
Proof.
  rewrite filter_In, negb_true_iff, str_eqb_neq; tauto.
Qed.

(** C4.  Deleting the id of the active note removes the entries of that id
    and turns editing off; the first remaining entry becomes the active note,
    and when nothing remains no note is selected.  In particular, when the
    collection is the active note alone, the result is the empty collection
    with no selection. *)
Theorem deleteNote_active (s : AppState) (a : Note) :
  activeNote s = Some a ->
  let s' := run (deleteNote (id a)) s in
  notes s' = filter (fun note => negb (str_eqb (id note) (id a))) (notes s) /\
  isEditing s' = false /\
  (forall first rest, notes s' = first :: rest -> activeNote s' = Some first) /\
  (notes s' = [] -> activeNote s' = None) /\
  (forall only, notes s = [only] -> id only = id a ->
     s' = initial [] /\ dispatch s (ClickDelete 0) = Some s').
Proof.
  intros Ha s'. subst s'.
  assert (E : run (deleteNote (id a)) s =
              {| notes := filter (fun note => negb (str_eqb (id note) (id a))) (notes s);
                 activeNote :=
                   match filter (fun note => negb (str_eqb (id note) (id a))) (notes s) with
                   | first :: _ => Some first
                   | [] => None
                   end;
                 isEditing := false |}).
  { unfold run, deleteNote. rewrite Ha, str_eqb_refl. reflexivity. }
  rewrite E; simpl.
  split; [ reflexivity | split; [ reflexivity | ] ].
  split; [ intros first rest ->; reflexivity | ].
  split; [ intros ->; reflexivity | ].
  intros only Hs Hid.
  assert (F : filter (fun note => negb (str_eqb (id note) (id a))) (notes s) = []).
  { rewrite Hs; simpl. rewrite Hid, str_eqb_refl; reflexivity. }
  rewrite F in E |- *.
  split; [ reflexivity | ].
  unfold dispatch; cbn [control]. rewrite Hs; cbn [nth_error].
  rewrite Hid, E; reflexivity.
Qed.

Lemma deleteNote_active_witness :
  activeNote (run (deleteNote (id (newNote 2 2)))
                  {| notes := [newNote 2 2; newNote 1 1];
                     activeNote := Some (newNote 2 2); isEditing := true |})
  = Some (newNote 1 1).
Proof.
  refine (proj1 (proj2 (proj2
            (deleteNote_active
               {| notes := [newNote 2 2; newNote 1 1];
                  activeNote := Some (newNote 2 2); isEditing := true |}
               (newNote 2 2) eq_refl))) (newNote 1 1) [] _).
  reflexivity.
Defined.

(** C5.  Deleting an id that is not the active note's (or when no note is
    active) keeps the active note and the editing flag; the collection loses
    the entries of that id and nothing else, the rest staying in order.  With
    distinct ids exactly one entry goes. *)
Theorem deleteNote_not_active (s : AppState) (i : jsstring) :
  (forall a, activeNote s = Some a -> id a <> i) ->
  let s' := run (deleteNote i) s in
  activeNote s' = activeNote s /\
  isEditing s' = isEditing s /\
  notes s' = filter (fun note => negb (str_eqb (id note) i)) (notes s) /\
  (forall n, In n (notes s') <-> In n (notes s) /\ id n <> i) /\
  (forall before gone after,
     notes s = before ++ gone :: after -> id gone = i ->
     NoDup (map id (notes s)) -> notes s' = before ++ after).
Proof.
  intros Hact s'. subst s'.
  assert (E : run (deleteNote i) s =
              {| notes := filter (fun note => negb (str_eqb (id note) i)) (notes s);
                 activeNote := activeNote s;
                 isEditing := isEditing s |}).
  { unfold run, deleteNote. destruct (activeNote s) as [a|] eqn:Ha.
    - assert (F : str_eqb (id a) i = false) by (apply str_eqb_neq; auto).
      rewrite F. cbn. rewrite Ha; reflexivity.
    - cbn. rewrite Ha; reflexivity. }
  rewrite E; simpl.
  split; [ reflexivity | split; [ reflexivity | split; [ reflexivity | ] ] ].
  split; [ intros n; apply filter_other_ids_In | ].
  intros before gone after Hs Hi Hnd.
  rewrite Hs in Hnd |- *. apply NoDup_ids_split in Hnd. rewrite Hi in Hnd.
  rewrite filter_app; simpl. rewrite Hi, str_eqb_refl; simpl.
  rewrite !filter_other_ids_absent; tauto.
Qed.

Lemma deleteNote_not_active_witness :
  let s := {| notes := [newNote 2 2; newNote 1 1];
              activeNote := Some (with_title (newNote 2 2) (lit "draft"));
              isEditing := true |} in
  activeNote (run (deleteNote (id (newNote 1 1))) s) = activeNote s /\
  isEditing (run (deleteNote (id (newNote 1 1))) s) = true.
Proof.
  cbv zeta.
  destruct (deleteNote_not_active
              {| notes := [newNote 2 2; newNote 1 1];
                 activeNote := Some (with_title (newNote 2 2) (lit "draft"));
                 isEditing := true |}
              (id (newNote 1 1))) as (Ha & He & _).
  - intros a E; injection E as <-. simpl. intros F; vm_compute in F; discriminate F.
  - split; [ exact Ha | exact He ].
Defined.

(** ** The editing invariant *)

(** C9.  In every state reachable from the first render through the
    controls on screen (create, select, edit, typing, save, cancel, delete),
    editing implies that a note is active. *)
Theorem editing_has_active_note (loaded : list Note) (s : AppState) :
  reachable loaded s ->
  isEditing s = true ->
  activeNote s <> None.
Proof.
  induction 1 as [|s e s' Hreach IH Hstep]; [ discriminate | ].
  unfold dispatch in Hstep.
  destruct (control s e) as [h|] eqn:Hc; [ | discriminate ].
  injection Hstep as <-.
  destruct e; simpl in Hc.
  - injection Hc as <-. discriminate.
  - destruct (nth_error (notes s) i); [ | discriminate ].
    injection Hc as <-. discriminate.
  - destruct (nth_error (notes s) i) as [n|]; [ | discriminate ].
    injection Hc as <-. unfold run, deleteNote.
    destruct (activeNote s) as [a|] eqn:Ha.
    + destruct (str_eqb (id a) (id n)); simpl; [ discriminate | ].
      rewrite Ha; discriminate.
    + simpl. intros He. exfalso. apply (IH He). reflexivity.
  - destruct (activeNote s) as [a|] eqn:Ha; [ | discriminate ].
    destruct (isEditing s); [ discriminate | ].
    injection Hc as <-. simpl. rewrite Ha; discriminate.
  - destruct (activeNote s) as [a|]; [ | discriminate ].
    destruct (isEditing s); [ | discriminate ].
    injection Hc as <-. discriminate.
  - destruct (activeNote s) as [a|]; [ | discriminate ].
    destruct (isEditing s); [ | discriminate ].
    injection Hc as <-. discriminate.
  - destruct (activeNote s) as [a|]; [ | discriminate ].
    destruct (isEditing s); [ | discriminate ].
    injection Hc as <-. discriminate.
  - destruct (activeNote s) as [a|]; [ | discriminate ].
    destruct (isEditing s); [ | discriminate ].
    injection Hc as <-. discriminate.
Qed.

Lemma editing_has_active_note_witness :
  activeNote (run (createNewNote 7 7) (initial [])) <> None.
Proof.
  apply (editing_has_active_note [] (run (createNewNote 7 7) (initial []))).
  - apply (reach_step [] (initial []) (ClickCreate 7 7)).
    + apply reach_initial.
    + reflexivity.
  - reflexivity.
Defined.

(* ================================================================== *)
(** ** Dates: [Date.parse] reads back what [toISOString] writes *)

Section DateFacts.

Import Date.

(** Linear arithmetic with floored quotients and remainders. *)
Ltac floor_arith := Z.div_mod_to_equations; lia.

(** *** Years *)

(** Four hundred years are 146097 days: [DayFromYear] stays within a year of
    the mean. *)
Lemma DayFromYear_lower (y : Z) : 146097 * (y - 1971) <= 400 * DayFromYear y.
Proof. unfold DayFromYear. floor_arith. Qed.

Lemma DayFromYear_upper (y : Z) : 400 * DayFromYear y <= 146097 * (y - 1970) + 589.
Proof. unfold DayFromYear. floor_arith. Qed.

Lemma DayFromYear_mono (y1 y2 : Z) : y1 <= y2 -> DayFromYear y1 <= DayFromYear y2.
Proof. unfold DayFromYear. intros H. floor_arith. Qed.

Lemma YearFromDay_spec (d : Z) :
  DayFromYear (YearFromDay d) <= d < DayFromYear (YearFromDay d + 1).
Proof.
  unfold YearFromDay.
  set (y := 1970 + 400 * d / 146097).
  assert (Hy : 146097 * (y - 1970) <= 400 * d < 146097 * (y - 1969)).
  { subst y. floor_arith. }
  clearbody y.
  destruct (Z.leb_spec (DayFromYear (y + 1)) d) as [H1|H1].
  - split; [ exact H1 | ].
    assert (L := DayFromYear_lower (y + 1 + 1)). lia.
  - destruct (Z.leb_spec (DayFromYear y) d) as [H2|H2].
    + lia.
    + assert (E : y - 1 + 1 = y) by lia. rewrite E. split; [ | exact H2 ].
      assert (U := DayFromYear_upper (y - 1)). lia.
Qed.

(** [YearFromDay d] is the largest year that starts on or before day [d]. *)
Lemma YearFromDay_largest (d y : Z) : DayFromYear y <= d -> y <= YearFromDay d.
Proof.
  intros H. destruct (YearFromDay_spec d) as [_ Hhi].
  destruct (Z_le_gt_dec y (YearFromDay d)) as [L|L]; [ exact L | ].
  assert (M := DayFromYear_mono (YearFromDay d + 1) y). lia.
Qed.

Lemma DaysInYear_step (y : Z) : DayFromYear (y + 1) = DayFromYear y + DaysInYear y.
Proof.
  unfold DayFromYear, DaysInYear, isLeapYear.
  destruct (Z.eqb_spec (y mod 4) 0), (Z.eqb_spec (y mod 100) 0), (Z.eqb_spec (y mod 400) 0);
    cbn [negb andb orb]; floor_arith.
Qed.

(** *** Months and days *)

Lemma all_from_spec (k : nat) (p : Z -> bool) :
  forall lo, all_from k p lo = true ->
  forall x, lo <= x < lo + 2 ^ Z.of_nat k -> p x = true.
Proof.
  induction k as [|k IH]; intros lo H x Hx.
  - simpl in *. replace x with lo by lia. exact H.
  - cbn [all_from] in H. apply andb_true_iff in H. destruct H as [H1 H2].
    rewrite Nat2Z.inj_succ, Z.pow_succ_r in Hx by lia.
    destruct (Z_lt_ge_dec x (lo + 2 ^ Z.of_nat k)).
    + apply (IH lo); auto. lia.
    + apply (IH (lo + 2 ^ Z.of_nat k)); auto. lia.
Qed.

Lemma month_ok_all (leap : bool) : all_from 9 (month_ok leap) 0 = true.
Proof. destruct leap; vm_compute; reflexivity. Qed.

Lemma MonthFromDay_spec (leap : bool) (d : Z) :
  0 <= d < (if leap then 366 else 365) ->
  0 <= MonthFromDay leap d <= 11 /\
  MonthStart leap (MonthFromDay leap d) <= d < MonthStart leap (MonthFromDay leap d + 1).
Proof.
  intros Hd.
  assert (H := all_from_spec 9 (month_ok leap) 0 (month_ok_all leap) d).
  change (2 ^ Z.of_nat 9) with 512 in H.
  assert (Hd' : 0 <= d < 0 + 512) by (destruct leap; lia).
  specialize (H Hd'). unfold month_ok in H.
  assert (E : (d <? (if leap then 366 else 365)) = true) by (apply Z.ltb_lt; lia).
  rewrite E in H.
  rewrite !andb_true_iff, !Z.leb_le, Z.ltb_lt in H. lia.
Qed.

(** *** Time of day *)

Lemma MakeTime_parts (t : Z) :
  MakeTime (HourFromTime t) (MinFromTime t) (SecFromTime t) (msFromTime t) = TimeWithinDay t.
Proof.
  unfold MakeTime, HourFromTime, MinFromTime, SecFromTime, msFromTime, TimeWithinDay,
    msPerHour, msPerMinute, msPerSecond, msPerDay.
  floor_arith.
Qed.

Lemma time_parts_bounds (t : Z) :
  0 <= HourFromTime t < 24 /\ 0 <= MinFromTime t < 60 /\
  0 <= SecFromTime t < 60 /\ 0 <= msFromTime t < 1000.
Proof.
  unfold HourFromTime, MinFromTime, SecFromTime, msFromTime, msPerSecond.
  repeat split; try (apply Z.mod_pos_bound; lia).
Qed.

(** *** Range of the year *)

Lemma Day_in_range (t : Z) :
  time_in_range t = true -> -100000000 <= Day t <= 100000000.
Proof.
  unfold time_in_range, maxTime, Day, msPerDay.
  rewrite andb_true_iff, !Z.leb_le. intros H.
  floor_arith.
Qed.

Lemma YearFromDay_in_range (d : Z) :
  -100000000 <= d <= 100000000 -> -271821 <= YearFromDay d <= 275760.
Proof.
  intros Hd. destruct (YearFromDay_spec d) as [Hlo Hhi].
  revert Hlo Hhi. generalize (YearFromDay d) as y. intros y.
  unfold DayFromYear. intros Hlo Hhi.
  floor_arith.
Qed.

(** *** Digits *)

Lemma digit_value_digit (n : Z) :
  0 <= n < 10 -> digit_value (Z.to_N (48 + n)) = Some n.
Proof.
  intros H. unfold digit_value.
  assert (E1 : (48 <=? Z.to_N (48 + n))%N = true) by (apply N.leb_le; lia).
  assert (E2 : (Z.to_N (48 + n) <=? 57)%N = true) by (apply N.leb_le; lia).
  rewrite E1, E2; cbn [andb]. f_equal. rewrite Z2N.id by lia. lia.
Qed.

Lemma read_digits_snoc (w : nat) :
  forall acc s,
    read_digits (S w) acc s =
    match read_digits w acc s with
    | Some (a, c :: r) =>
        match digit_value c with
        | Some d => Some (10 * a + d, r)
        | None => None
        end
    | _ => None
    end.
Proof.
  induction w as [|w IH]; intros acc s.
  - simpl. destruct s as [|c r]; auto.
  - destruct s as [|c r]; [ reflexivity | ].
    change (read_digits (S (S w)) acc (c :: r))
      with (match digit_value c with
            | Some d => read_digits (S w) (10 * acc + d) r
            | None => None
            end).
    change (read_digits (S w) acc (c :: r))
      with (match digit_value c with
            | Some d => read_digits w (10 * acc + d) r
            | None => None
            end).
    destruct (digit_value c) as [d|]; [ apply IH | reflexivity ].
Qed.

Lemma read_digits_digits (w : nat) :
  forall n acc r,
    0 <= n < 10 ^ Z.of_nat w ->
    read_digits w acc (digits w n ++ r) = Some (acc * 10 ^ Z.of_nat w + n, r).
Proof.
  induction w as [|w IH]; intros n acc r Hn.
  - simpl in *. f_equal. f_equal. lia.
  - rewrite read_digits_snoc. cbn [digits]. rewrite <- app_assoc.
    rewrite Nat2Z.inj_succ, Z.pow_succ_r in Hn |- * by lia.
    rewrite IH by floor_arith.
    cbn [app]. rewrite digit_value_digit by (apply Z.mod_pos_bound; lia).
    f_equal. f_equal. floor_arith.
Qed.

Lemma read_digits_fixed (w : nat) (n : Z) (r : jsstring) :
  0 <= n < 10 ^ Z.of_nat w ->
  read_digits w 0 (digits w n ++ r) = Some (n, r).
Proof.
  intros H. rewrite read_digits_digits by exact H. reflexivity.
Qed.

Lemma digits_head (w : nat) (n : Z) (r : jsstring) :
  exists c rest, digits (S w) n ++ r = c :: rest /\ (48 <= c)%N.
Proof.
  revert n r; induction w as [|w IH]; intros n r.
  - cbn [digits app]. eexists _, _; split; [ reflexivity | ].
    assert (0 <= n mod 10) by (apply Z.mod_pos_bound; lia). lia.
  - change (digits (S (S w)) n) with (digits (S w) (n / 10) ++ [Z.to_N (48 + n mod 10)]).
    rewrite <- app_assoc. apply IH.
Qed.

Lemma read_year_digits (y : Z) (r : jsstring) :
  -271821 <= y <= 275760 ->
  read_year (year_digits y ++ r) = Some (y, r).
Proof.
  intros Hy. unfold year_digits.
  destruct (Z.leb_spec 0 y) as [H0|H0]; [ destruct (Z.leb_spec y 9999) as [H1|H1] | ];
    cbn [andb].
  - destruct (digits_head 3 y r) as (c & rest & E & Hc).
    unfold read_year. rewrite E.
    assert (Ep : is_char "+" c = false) by (apply N.eqb_neq; cbn; lia).
    assert (Em : is_char "-" c = false) by (apply N.eqb_neq; cbn; lia).
    rewrite Ep, Em, <- E. apply read_digits_fixed. cbn; lia.
  - assert (E : (y <? 0) = false) by (apply Z.ltb_ge; lia). rewrite E.
    cbn [lit list_ascii_of_string map app read_year].
    change (is_char "+" (N_of_ascii "+")) with true. cbv iota.
    apply read_digits_fixed. cbn; lia.
  - assert (E : (y <? 0) = true) by (apply Z.ltb_lt; lia). rewrite E.
    cbn [lit list_ascii_of_string map app read_year].
    change (is_char "+" (N_of_ascii "-")) with false.
    change (is_char "-" (N_of_ascii "-")) with true. cbv iota.
    rewrite read_digits_fixed by (cbn; lia). cbn [bind].
    assert (E0 : (- y =? 0) = false) by (apply Z.eqb_neq; lia).
    rewrite E0. f_equal. f_equal. lia.
Qed.

Lemma expect_lit (a : ascii) (r : jsstring) :
  expect a (lit (String a EmptyString) ++ r) = Some r.
Proof.
  unfold expect, lit; simpl. unfold is_char. rewrite N.eqb_refl. reflexivity.
Qed.

(** *** Reading back what [toISOString] wrote *)

Lemma MonthStart_step (leap : bool) (m : Z) :
  0 <= m <= 11 -> 28 <= MonthStart leap (m + 1) - MonthStart leap m <= 31.
Proof.
  intros H.
  assert (C : m = 0 \/ m = 1 \/ m = 2 \/ m = 3 \/ m = 4 \/ m = 5 \/ m = 6 \/
              m = 7 \/ m = 8 \/ m = 9 \/ m = 10 \/ m = 11) by lia.
  destruct leap; repeat (destruct C as [-> | C]); try subst m; vm_compute;
    split; discriminate.
Qed.

Lemma MakeDate_parts (t : Z) : MakeDate (Day t) (TimeWithinDay t) = t.
Proof.
  unfold MakeDate, Day, TimeWithinDay, msPerDay.
  floor_arith.
Qed.

Lemma Date_parse_toISOString (t : Z) :
  time_in_range t = true ->
  parse (toISOString t) = Some t.
Proof.
  intros Ht.
  assert (Hday := Day_in_range t Ht).
  assert (Hy := YearFromDay_in_range (Day t) Hday).
  destruct (YearFromDay_spec (Day t)) as [Hlo Hhi].
  rewrite DaysInYear_step in Hhi.
  fold (YearFromTime t) in Hy, Hlo, Hhi.
  assert (Hdwy : 0 <= DayWithinYear t < (if isLeapYear (YearFromTime t) then 366 else 365)).
  { unfold DayWithinYear. unfold DaysInYear in Hhi.
    destruct (isLeapYear (YearFromTime t)); lia. }
  destruct (MonthFromDay_spec _ _ Hdwy) as (Hm & Hms).
  fold (MonthFromTime t) in Hm, Hms.
  assert (Hstep := MonthStart_step (isLeapYear (YearFromTime t)) (MonthFromTime t) Hm).
  assert (Hd : 1 <= DateFromTime t <= DaysInMonth (YearFromTime t) (MonthFromTime t)).
  { unfold DateFromTime, DaysInMonth. lia. }
  assert (Hd31 : DaysInMonth (YearFromTime t) (MonthFromTime t) <= 31).
  { unfold DaysInMonth. lia. }
  assert (Hmake : MakeDay (YearFromTime t) (MonthFromTime t) (DateFromTime t) = Day t).
  { unfold MakeDay, DateFromTime, DayWithinYear. lia. }
  destruct (time_parts_bounds t) as (Hh & Hmi & Hs & Hmsec).
  unfold parse, toISOString.
  rewrite read_year_digits by exact Hy. cbn [bind].
  rewrite expect_lit. cbn [bind].
  rewrite read_digits_fixed by (change (10 ^ Z.of_nat 2) with 100; lia). cbn [bind].
  rewrite expect_lit. cbn [bind].
  rewrite read_digits_fixed by (change (10 ^ Z.of_nat 2) with 100; lia). cbn [bind].
  rewrite expect_lit. cbn [bind].
  rewrite read_digits_fixed by (change (10 ^ Z.of_nat 2) with 100; lia). cbn [bind].
  rewrite expect_lit. cbn [bind].
  rewrite read_digits_fixed by (change (10 ^ Z.of_nat 2) with 100; lia). cbn [bind].
  rewrite expect_lit. cbn [bind].
  rewrite read_digits_fixed by (change (10 ^ Z.of_nat 2) with 100; lia). cbn [bind].
  rewrite expect_lit. cbn [bind].
  rewrite read_digits_fixed by (change (10 ^ Z.of_nat 3) with 1000; lia). cbn [bind].
  change (expect "Z" (lit "Z")) with (Some (@nil N)). cbn [bind].
  replace (MonthFromTime t + 1 - 1) with (MonthFromTime t) by lia.
  rewrite Hmake, MakeTime_parts, MakeDate_parts.
  unfold TimeClip. rewrite Ht.
  repeat match goal with
         | |- context [?a <=? ?b] =>
             let E := fresh in
             assert (E : (a <=? b) = true) by (apply Z.leb_le; lia); rewrite E; clear E
         end.
  assert (E : (HourFromTime t <? 24) = true) by (apply Z.ltb_lt; lia).
  rewrite E. reflexivity.
Qed.

End DateFacts.

(* ================================================================== *)
(** ** JSON: [JSON.parse] reads back what [JSON.stringify] writes *)

Section JSONFacts.

Import JSON.

Local Open Scope N_scope.

(** *** String literals *)

Lemma hex_value_digit (d : N) : d < 16 -> hex_value (hex_digit d) = Some d.
Proof.
  intros H. unfold hex_digit, hex_value.
  destruct (N.ltb_spec d 10) as [L|L].
  - assert (E1 : (48 <=? 48 + d) = true) by (apply N.leb_le; lia).
    assert (E2 : (48 + d <=? 57) = true) by (apply N.leb_le; lia).
    rewrite E1, E2. cbn [andb]. f_equal. lia.
  - assert (E1 : (87 + d <=? 57) = false) by (apply N.leb_gt; lia).
    assert (E2 : (97 <=? 87 + d) = true) by (apply N.leb_le; lia).
    assert (E3 : (87 + d <=? 102) = true) by (apply N.leb_le; lia).
    rewrite E1, E2, E3, andb_false_r. cbn [andb]. f_equal. lia.
Qed.

Lemma hex_recompose (c : N) :
  c < 65536 ->
  4096 * (c / 4096 mod 16) + 256 * (c / 256 mod 16) + 16 * (c / 16 mod 16) + c mod 16 = c.
Proof.
  intros H. zify. Z.to_euclidean_division_equations. lia.
Qed.

Lemma read_string_plain (c : N) (tail str rest : jsstring) :
  c <> 34 -> c <> 92 -> 32 <= c ->
  read_string tail = Some (str, rest) ->
  read_string (c :: tail) = Some (c :: str, rest).
Proof.
  intros Hq Hb Hc Ht. cbn [read_string]. unfold is_char.
  change (N_of_ascii "034") with 34. change (N_of_ascii "\") with 92.
  apply N.eqb_neq in Hq, Hb. rewrite Hq, Hb.
  assert (E : (c <? 32) = false) by (apply N.ltb_ge; lia).
  rewrite E, Ht. reflexivity.
Qed.

Lemma read_string_UnicodeEscape (c : N) (tail str rest : jsstring) :
  c < 65536 ->
  read_string tail = Some (str, rest) ->
  read_string (UnicodeEscape c ++ tail) = Some (c :: str, rest).
Proof.
  intros Hc Ht. unfold UnicodeEscape.
  cbn [lit list_ascii_of_string map app read_string].
  change (is_char "034" (N_of_ascii "\")) with false.
  change (is_char "\" (N_of_ascii "\")) with true.
  change (is_char "u" (N_of_ascii "u")) with true.
  cbv iota.
  rewrite !hex_value_digit by (apply N.mod_lt; discriminate).
  cbn [bind]. rewrite Ht. cbn [bind].
  rewrite hex_recompose by exact Hc. reflexivity.
Qed.

Lemma surrogate_bounds (c : N) :
  is_leading_surrogate c || is_trailing_surrogate c = true ->
  0xD800 <= c <= 0xDFFF.
Proof.
  unfold is_leading_surrogate, is_trailing_surrogate.
  rewrite orb_true_iff, !andb_true_iff, !N.leb_le. lia.
Qed.

Lemma read_string_quote_unit (c : N) (tail str rest : jsstring) :
  read_string tail = Some (str, rest) ->
  read_string (quote_unit c ++ tail) = Some (c :: str, rest).
Proof.
  intros Ht. unfold quote_unit.
  destruct (N.eqb_spec c 8) as [->|H8]; [ cbn; rewrite Ht; reflexivity | ].
  destruct (N.eqb_spec c 9) as [->|H9]; [ cbn; rewrite Ht; reflexivity | ].
  destruct (N.eqb_spec c 10) as [->|H10]; [ cbn; rewrite Ht; reflexivity | ].
  destruct (N.eqb_spec c 12) as [->|H12]; [ cbn; rewrite Ht; reflexivity | ].
  destruct (N.eqb_spec c 13) as [->|H13]; [ cbn; rewrite Ht; reflexivity | ].
  destruct (N.eqb_spec c 34) as [->|H34]; [ cbn; rewrite Ht; reflexivity | ].
  destruct (N.eqb_spec c 92) as [->|H92]; [ cbn; rewrite Ht; reflexivity | ].
  destruct (N.ltb_spec c 32) as [L|L]; cbn [orb].
  - apply read_string_UnicodeEscape; [ lia | exact Ht ].
  - destruct (is_leading_surrogate c || is_trailing_surrogate c) eqn:S.
    + apply read_string_UnicodeEscape; [ | exact Ht ].
      apply surrogate_bounds in S. lia.
    + apply read_string_plain; auto.
Qed.

Lemma quote_units_pair (c c2 : N) (r2 : jsstring) :
  quote_units (c :: c2 :: r2) =
  if is_leading_surrogate c && is_trailing_surrogate c2
  then c :: c2 :: quote_units r2
  else quote_unit c ++ quote_units (c2 :: r2).
Proof. reflexivity. Qed.

Lemma read_string_quote_units_len (n : nat) :
  forall s rest,
    (List.length s <= n)%nat ->
    read_string (quote_units s ++ 34 :: rest) = Some (s, rest).
Proof.
  induction n as [|n IH]; intros s rest Hn.
  - destruct s; [ reflexivity | simpl in Hn; lia ].
  - destruct s as [|c [|c2 r2]].
    + reflexivity.
    + cbn [quote_units]. apply read_string_quote_unit. reflexivity.
    + rewrite quote_units_pair.
      destruct (is_leading_surrogate c && is_trailing_surrogate c2) eqn:P.
      * apply andb_true_iff in P. destruct P as [P1 P2].
        assert (B1 : 0xD800 <= c <= 0xDFFF)
          by (apply surrogate_bounds; rewrite P1; reflexivity).
        assert (B2 : 0xD800 <= c2 <= 0xDFFF)
          by (apply surrogate_bounds; rewrite P2; apply orb_true_r).
        cbn [app].
        apply read_string_plain; try lia.
        apply read_string_plain; try lia.
        apply IH. simpl in Hn |- *. lia.
      * rewrite <- app_assoc. apply read_string_quote_unit.
        apply IH. simpl in Hn |- *. lia.
Qed.

Lemma read_string_quote_units (s rest : jsstring) :
  read_string (quote_units s ++ 34 :: rest) = Some (s, rest).
Proof. apply (read_string_quote_units_len (List.length s)); lia. Qed.

Lemma parse_value_string (fuel : nat) (s rest : jsstring) :
  parse_value (S fuel) (QuoteJSONString s ++ rest) = Some (VString s, rest).
Proof.
  unfold QuoteJSONString. cbn [app parse_value skip_ws].
  change (is_ws 34) with false. cbv iota.
  change (is_char "034" 34) with true. cbv iota.
  rewrite <- app_assoc. cbn [app].
  rewrite read_string_quote_units. reflexivity.
Qed.

End JSONFacts.

(* ================================================================== *)
(** ** JSON: the fuel of the reader never decides *)

Section Fuel.

Import JSON.

Lemma skip_ws_length (s : jsstring) : (List.length (skip_ws s) <= List.length s)%nat.
Proof.
  induction s as [|c r IH]; [ apply le_n | ].
  cbn [skip_ws]. destruct (is_ws c); cbn [List.length]; lia.
Qed.

Lemma read_string_length_aux (n : nat) :
  forall s, (List.length s <= n)%nat ->
  forall str rest, read_string s = Some (str, rest) ->
                   (List.length rest < List.length s)%nat.
Proof.
  induction n as [|n IHn]; intros s Hn str rest H;
    [ destruct s; [ discriminate H | cbn [List.length] in Hn; lia ] | ].
  assert (IH : forall y str rest, (List.length y < List.length s)%nat ->
                 read_string y = Some (str, rest) ->
                 (List.length rest < List.length y)%nat)
    by (intros y str0 rest0 Hy; apply IHn; lia).
  clear IHn. destruct s as [|c r]; [ discriminate H | ].
  cbn [read_string] in H.
  destruct (is_char "034" c).
  { injection H as _ <-. cbn [List.length]. lia. }
  destruct (is_char "\" c).
  - destruct r as [|e r1]; [ discriminate H | ].
    destruct (is_char "u" e).
    + destruct r1 as [|h1 [|h2 [|h3 [|h4 r2]]]]; try discriminate H.
      destruct (hex_value h1); [ | discriminate H ].
      destruct (hex_value h2); [ | discriminate H ].
      destruct (hex_value h3); [ | discriminate H ].
      destruct (hex_value h4); [ | discriminate H ].
      cbn [bind] in H.
      destruct (read_string r2) as [[str' rest']|] eqn:E; [ | discriminate H ].
      cbn [bind] in H. injection H as _ <-.
      apply IH in E; cbn [List.length] in *; lia.
    + destruct (escape_unit e); [ | discriminate H ]. cbn [bind] in H.
      destruct (read_string r1) as [[str' rest']|] eqn:E; [ | discriminate H ].
      cbn [bind] in H. injection H as _ <-.
      apply IH in E; cbn [List.length] in *; lia.
  - destruct (c <? 32)%N; [ discriminate H | ].
    destruct (read_string r) as [[str' rest']|] eqn:E; [ | discriminate H ].
    cbn [bind] in H. injection H as _ <-.
    apply IH in E; cbn [List.length] in *; lia.
Qed.

Lemma read_string_length (s str rest : jsstring) :
  read_string s = Some (str, rest) -> (List.length rest < List.length s)%nat.
Proof. apply (read_string_length_aux (List.length s)); lia. Qed.


Lemma span_digits_length (s : jsstring) :
  List.length s =
  (List.length (fst (span_digits s)) + List.length (snd (span_digits s)))%nat.
Proof.
  induction s as [|c r IH]; [ reflexivity | ].
  cbn [span_digits]. destruct (is_digit c); [ | reflexivity ].
  destruct (span_digits r) as [ds rest]. cbn [fst snd List.length] in *. lia.
Qed.

Lemma read_digits1_length (s ds rest : jsstring) :
  read_digits1 s = Some (ds, rest) -> (List.length rest < List.length s)%nat.
Proof.
  unfold read_digits1. intros H. assert (L := span_digits_length s).
  destruct (span_digits s) as [[|d ds'] rest']; [ discriminate H | ].
  injection H as <- <-. cbn [fst snd List.length] in L. lia.
Qed.

Lemma strip_prefix_length (p : jsstring) :
  forall s rest, strip_prefix p s = Some rest ->
                 List.length s = (List.length p + List.length rest)%nat.
Proof.
  induction p as [|a p IH]; intros s rest H.
  - injection H as <-. reflexivity.
  - destruct s as [|c s]; [ discriminate H | ]. cbn [strip_prefix] in H.
    destruct (a =? c)%N; [ | discriminate H ].
    apply IH in H. cbn [List.length]. lia.
Qed.

Lemma read_number_length (s lexeme rest : jsstring) :
  read_number s = Some (lexeme, rest) -> (List.length rest < List.length s)%nat.
Proof.
  unfold read_number. intros H.
  set (signed := match s with
                 | c :: r => if is_char "-" c then ([c], r) else ([], s)
                 | [] => ([], s)
                 end) in H.
  assert (L1 : (List.length (snd signed) <= List.length s)%nat).
  { subst signed. destruct s as [|c r]; [ apply le_n | ].
    destruct (is_char "-" c); cbn [snd List.length]; lia. }
  destruct signed as [sign s1]. cbn [snd] in L1.
  set (int := match s1 with
              | c :: r =>
                  if is_char "0" c then Some ([c], r)
                  else if is_digit c
                       then let (ds, rest) := span_digits r in Some (c :: ds, rest)
                       else None
              | [] => None
              end) in H.
  assert (L2 : forall i s2, int = Some (i, s2) -> (List.length s2 < List.length s1)%nat).
  { subst int. intros i s2 E. destruct s1 as [|c r]; [ discriminate E | ].
    destruct (is_char "0" c).
    - injection E as _ <-. cbn [List.length]. lia.
    - destruct (is_digit c); [ | discriminate E ].
      assert (L := span_digits_length r). destruct (span_digits r) as [ds rest0].
      injection E as _ <-. cbn [fst snd List.length] in *. lia. }
  destruct int as [[i s2]|]; [ | discriminate H ]. cbn [bind] in H.
  specialize (L2 i s2 eq_refl).
  set (frac := match s2 with
               | c :: r =>
                   if is_char "." c
                   then let? (ds, rest) := read_digits1 r in Some (c :: ds, rest)
                   else Some ([], s2)
               | [] => Some ([], s2)
               end) in H.
  assert (L3 : forall fr s3, frac = Some (fr, s3) -> (List.length s3 <= List.length s2)%nat).
  { subst frac. intros fr s3 E. destruct s2 as [|c r]; [ injection E as _ <-; apply le_n | ].
    destruct (is_char "." c).
    - destruct (read_digits1 r) as [[ds rest0]|] eqn:D; [ | discriminate E ].
      cbn [bind] in E. injection E as _ <-.
      apply read_digits1_length in D. cbn [List.length]. lia.
    - injection E as _ <-. apply le_n. }
  destruct frac as [[fr s3]|]; [ | discriminate H ]. cbn [bind] in H.
  specialize (L3 fr s3 eq_refl).
  set (expo := match s3 with
               | c :: r =>
                   if is_char "e" c || is_char "E" c then
                     let (sg, r') :=
                       match r with
                       | c' :: r'' =>
                           if is_char "+" c' || is_char "-" c' then ([c'], r'') else ([], r)
                       | [] => ([], r)
                       end in
                     let? (ds, rest) := read_digits1 r' in Some (c :: sg ++ ds, rest)
                   else Some ([], s3)
               | [] => Some ([], s3)
               end) in H.
  assert (L4 : forall ex s4, expo = Some (ex, s4) -> (List.length s4 <= List.length s3)%nat).
  { subst expo. intros ex s4 E. destruct s3 as [|c r]; [ injection E as _ <-; apply le_n | ].
    destruct (is_char "e" c || is_char "E" c).
    - set (sgn := match r with
                  | c' :: r'' =>
                      if is_char "+" c' || is_char "-" c' then ([c'], r'') else ([], r)
                  | [] => ([], r)
                  end) in E.
      assert (L : (List.length (snd sgn) <= List.length r)%nat).
      { subst sgn. destruct r as [|c' r'']; [ apply le_n | ].
        destruct (is_char "+" c' || is_char "-" c'); cbn [snd List.length]; lia. }
      destruct sgn as [sg r']. cbn [snd] in L.
      destruct (read_digits1 r') as [[ds rest0]|] eqn:D; [ | discriminate E ].
      cbn [bind] in E. injection E as _ <-.
      apply read_digits1_length in D. cbn [List.length]. lia.
    - injection E as _ <-. apply le_n. }
  destruct expo as [[ex s4]|]; [ | discriminate H ]. cbn [bind] in H.
  specialize (L4 ex s4 eq_refl).
  injection H as _ <-. lia.
Qed.


Lemma skip_ws_cons (s : jsstring) (c : N) (r : jsstring) :
  skip_ws s = c :: r -> (List.length r < List.length s)%nat.
Proof.
  intros E. assert (L := skip_ws_length s). rewrite E in L.
  cbn [List.length] in L. lia.
Qed.

(** A successful reading consumes text, and any fuel above the number of code
    units consumed repeats it. *)
Lemma parse_fuel (f : nat) :
  (forall s v r, parse_value f s = Some (v, r) ->
     (List.length r < List.length s)%nat /\
     forall f', (List.length s - List.length r < f')%nat ->
                parse_value f' s = Some (v, r)) /\
  (forall s vs r, parse_items f s = Some (vs, r) ->
     (List.length r < List.length s)%nat /\
     forall f', (List.length s - List.length r < f')%nat ->
                parse_items f' s = Some (vs, r)) /\
  (forall s ms r, parse_members f s = Some (ms, r) ->
     (List.length r < List.length s)%nat /\
     forall f', (List.length s - List.length r < f')%nat ->
                parse_members f' s = Some (ms, r)).
Proof.
  induction f as [|f (IHv & IHi & IHm)];
    [ repeat split; intros; discriminate | ].
  split; [ | split ].
  - intros s v r H. cbn [parse_value] in H.
    destruct (skip_ws s) as [|c r0] eqn:Es; [ discriminate H | ].
    assert (L := skip_ws_cons _ _ _ Es).
    destruct (is_char "034" c) eqn:E1.
    { destruct (read_string r0) as [[str rest]|] eqn:Er; [ | discriminate H ].
      cbn [bind] in H. injection H as <- <-.
      assert (Lr := read_string_length _ _ _ Er).
      split; [ lia | ]. intros [|g] Hf; [ lia | ].
      cbn [parse_value]. rewrite Es, E1, Er. reflexivity. }
    destruct (is_char "[" c) eqn:E2.
    { destruct (skip_ws r0) as [|c' r'] eqn:Es2; [ discriminate H | ].
      assert (L2 := skip_ws_cons _ _ _ Es2).
      destruct (is_char "]" c') eqn:E3.
      - injection H as <- <-. split; [ lia | ]. intros [|g] Hf; [ lia | ].
        cbn [parse_value]. rewrite Es, E1, E2, Es2, E3. reflexivity.
      - destruct (parse_items f r0) as [[items rest]|] eqn:Ei; [ | discriminate H ].
        cbn [bind] in H. injection H as <- <-.
        destruct (IHi _ _ _ Ei) as [Li Fi].
        split; [ lia | ]. intros [|g] Hf; [ lia | ].
        cbn [parse_value]. rewrite Es, E1, E2, Es2, E3, (Fi g) by lia. reflexivity. }
    destruct (is_char "{" c) eqn:E4.
    { destruct (skip_ws r0) as [|c' r'] eqn:Es2; [ discriminate H | ].
      assert (L2 := skip_ws_cons _ _ _ Es2).
      destruct (is_char "}" c') eqn:E3.
      - injection H as <- <-. split; [ lia | ]. intros [|g] Hf; [ lia | ].
        cbn [parse_value]. rewrite Es, E1, E2, E4, Es2, E3. reflexivity.
      - destruct (parse_members f r0) as [[members rest]|] eqn:Ei; [ | discriminate H ].
        cbn [bind] in H. injection H as <- <-.
        destruct (IHm _ _ _ Ei) as [Li Fi].
        split; [ lia | ]. intros [|g] Hf; [ lia | ].
        cbn [parse_value]. rewrite Es, E1, E2, E4, Es2, E3, (Fi g) by lia. reflexivity. }
    destruct (is_char "t" c) eqn:E5.
    { destruct (strip_prefix (lit "true") (c :: r0)) as [rest|] eqn:Ep; [ | discriminate H ].
      cbn [bind] in H. injection H as <- <-.
      assert (Lp := strip_prefix_length _ _ _ Ep).
      cbn [lit list_ascii_of_string map List.length] in Lp.
      split; [ cbn [List.length] in *; lia | ]. intros [|g] Hf; [ lia | ].
      cbn [parse_value]. rewrite Es, E1, E2, E4, E5, Ep. reflexivity. }
    destruct (is_char "f" c) eqn:E6.
    { destruct (strip_prefix (lit "false") (c :: r0)) as [rest|] eqn:Ep; [ | discriminate H ].
      cbn [bind] in H. injection H as <- <-.
      assert (Lp := strip_prefix_length _ _ _ Ep).
      cbn [lit list_ascii_of_string map List.length] in Lp.
      split; [ cbn [List.length] in *; lia | ]. intros [|g] Hf; [ lia | ].
      cbn [parse_value]. rewrite Es, E1, E2, E4, E5, E6, Ep. reflexivity. }
    destruct (is_char "n" c) eqn:E7.
    { destruct (strip_prefix (lit "null") (c :: r0)) as [rest|] eqn:Ep; [ | discriminate H ].
      cbn [bind] in H. injection H as <- <-.
      assert (Lp := strip_prefix_length _ _ _ Ep).
      cbn [lit list_ascii_of_string map List.length] in Lp.
      split; [ cbn [List.length] in *; lia | ]. intros [|g] Hf; [ lia | ].
      cbn [parse_value]. rewrite Es, E1, E2, E4, E5, E6, E7, Ep. reflexivity. }
    destruct (read_number (c :: r0)) as [[lexeme rest]|] eqn:En; [ | discriminate H ].
    cbn [bind] in H. injection H as <- <-.
    assert (Ln := read_number_length _ _ _ En).
    split; [ cbn [List.length] in *; lia | ]. intros [|g] Hf; [ lia | ].
    cbn [parse_value]. rewrite Es, E1, E2, E4, E5, E6, E7, En. reflexivity.
  - intros s vs r H. cbn [parse_items] in H.
    destruct (parse_value f s) as [[x r1]|] eqn:Ev; [ | discriminate H ].
    cbn [bind] in H. destruct (IHv _ _ _ Ev) as [Lv Fv].
    destruct (skip_ws r1) as [|c r'] eqn:Es; [ discriminate H | ].
    assert (L := skip_ws_cons _ _ _ Es).
    destruct (is_char "," c) eqn:E1.
    + destruct (parse_items f r') as [[items rest]|] eqn:Ei; [ | discriminate H ].
      cbn [bind] in H. injection H as <- <-.
      destruct (IHi _ _ _ Ei) as [Li Fi].
      split; [ lia | ]. intros [|g] Hf; [ lia | ].
      cbn [parse_items]. rewrite (Fv g) by lia. cbn [bind].
      rewrite Es, E1, (Fi g) by lia. reflexivity.
    + destruct (is_char "]" c) eqn:E2; [ | discriminate H ].
      injection H as <- <-. split; [ lia | ]. intros [|g] Hf; [ lia | ].
      cbn [parse_items]. rewrite (Fv g) by lia. cbn [bind].
      rewrite Es, E1, E2. reflexivity.
  - intros s ms r H. cbn [parse_members] in H.
    destruct (skip_ws s) as [|c r0] eqn:Es; [ discriminate H | ].
    assert (L := skip_ws_cons _ _ _ Es).
    destruct (is_char "034" c) eqn:E1; [ | discriminate H ].
    destruct (read_string r0) as [[k r1]|] eqn:Er; [ | discriminate H ].
    cbn [bind] in H. assert (Lr := read_string_length _ _ _ Er).
    destruct (expect ":" (skip_ws r1)) as [r2|] eqn:Ee; [ | discriminate H ].
    cbn [bind] in H.
    assert (Le : (List.length r2 < List.length r1)%nat).
    { unfold expect in Ee. destruct (skip_ws r1) as [|c1 t1] eqn:Es1; [ discriminate Ee | ].
      destruct (is_char ":" c1); [ | discriminate Ee ]. injection Ee as <-.
      apply (skip_ws_cons _ _ _ Es1). }
    destruct (parse_value f r2) as [[x r3]|] eqn:Ev; [ | discriminate H ].
    cbn [bind] in H. destruct (IHv _ _ _ Ev) as [Lv Fv].
    destruct (skip_ws r3) as [|c' r4] eqn:Es3; [ discriminate H | ].
    assert (L3 := skip_ws_cons _ _ _ Es3).
    destruct (is_char "," c') eqn:E2.
    + destruct (parse_members f r4) as [[members rest]|] eqn:Ei; [ | discriminate H ].
      cbn [bind] in H. injection H as <- <-.
      destruct (IHm _ _ _ Ei) as [Li Fi].
      split; [ lia | ]. intros [|g] Hf; [ lia | ].
      cbn [parse_members]. rewrite Es, E1, Er. cbn [bind]. rewrite Ee. cbn [bind].
      rewrite (Fv g) by lia. cbn [bind]. rewrite Es3, E2, (Fi g) by lia. reflexivity.
    + destruct (is_char "}" c') eqn:E3; [ | discriminate H ].
      injection H as <- <-. split; [ lia | ]. intros [|g] Hf; [ lia | ].
      cbn [parse_members]. rewrite Es, E1, Er. cbn [bind]. rewrite Ee. cbn [bind].
      rewrite (Fv g) by lia. cbn [bind]. rewrite Es3, E2, E3. reflexivity.
Qed.

(** [JSON.parse] never fails for want of fuel: a text that some amount of
    fuel reads as a value followed by white space is accepted. *)
Lemma parse_complete (text : jsstring) (f : nat) (v : value) (rest : jsstring) :
  parse_value f text = Some (v, rest) ->
  skip_ws rest = [] ->
  parse text = Some v.
Proof.
  intros H Hrest. unfold parse.
  destruct (proj1 (parse_fuel f) _ _ _ H) as [L F].
  rewrite (F (S (List.length text))) by lia.
  cbn [bind]. rewrite Hrest. reflexivity.
Qed.

End Fuel.

(* ================================================================== *)
(** ** The stored text of a collection *)

Section StoredText.

Import JSON.

Lemma parses_string (fuel : nat) (s : jsstring) :
  parses_as (S fuel) (QuoteJSONString s) (VString s).
Proof. intros tail. apply parse_value_string. Qed.

Lemma parses_null (fuel : nat) : parses_as (S fuel) (lit "null") VNull.
Proof. intros tail. reflexivity. Qed.

Lemma parses_timestamp (fuel : nat) (ts : Timestamp) :
  parses_as (S fuel) (stringify (js_of_timestamp ts)) (parsed_timestamp ts).
Proof.
  destruct ts as [t|s]; cbn [js_of_timestamp stringify parsed_timestamp].
  - destruct (Date.time_in_range t); [ apply parses_string | apply parses_null ].
  - apply parses_string.
Qed.

Lemma parse_value_object (fuel : nat) (k tail : jsstring) :
  parse_value (S fuel) (lit "{" ++ QuoteJSONString k ++ tail) =
  let? (members, rest) := parse_members fuel (QuoteJSONString k ++ tail) in
  Some (VObject members, rest).
Proof. reflexivity. Qed.

Lemma parse_members_key (fuel : nat) (k tail : jsstring) :
  parse_members (S fuel) (QuoteJSONString k ++ lit ":" ++ tail) =
  let? (x, r3) := parse_value fuel tail in
  match skip_ws r3 with
  | c' :: r4 =>
      if is_char "," c' then
        let? (members, rest) := parse_members fuel r4 in
        Some ((k, x) :: members, rest)
      else if is_char "}" c' then Some ([(k, x)], r4)
      else None
  | [] => None
  end.
Proof.
  unfold QuoteJSONString. cbn [app parse_members skip_ws].
  change (is_ws 34) with false. cbv iota.
  change (is_char "034" 34) with true. cbv iota.
  rewrite <- app_assoc. cbn [app].
  rewrite read_string_quote_units. reflexivity.
Qed.

Lemma parse_members_more (fuel : nat) (k sx : jsstring) (x : value) (more : jsstring) :
  parses_as fuel sx x ->
  parse_members (S fuel) (QuoteJSONString k ++ lit ":" ++ sx ++ lit "," ++ more) =
  let? (members, rest) := parse_members fuel more in
  Some ((k, x) :: members, rest).
Proof.
  intros Hx. rewrite parse_members_key, Hx. reflexivity.
Qed.

Lemma parse_members_last (fuel : nat) (k sx : jsstring) (x : value) (rest : jsstring) :
  parses_as fuel sx x ->
  parse_members (S fuel) (QuoteJSONString k ++ lit ":" ++ sx ++ lit "}" ++ rest) =
  Some ([(k, x)], rest).
Proof.
  intros Hx. rewrite parse_members_key, Hx. reflexivity.
Qed.

Lemma parse_items_more (fuel : nat) (sx : jsstring) (x : value) (more : jsstring) :
  parses_as fuel sx x ->
  parse_items (S fuel) (sx ++ lit "," ++ more) =
  let? (items, rest) := parse_items fuel more in
  Some (x :: items, rest).
Proof.
  intros Hx. cbn [parse_items]. rewrite Hx. reflexivity.
Qed.

Lemma parse_items_last (fuel : nat) (sx : jsstring) (x : value) (rest : jsstring) :
  parses_as fuel sx x ->
  parse_items (S fuel) (sx ++ lit "]" ++ rest) = Some ([x], rest).
Proof.
  intros Hx. cbn [parse_items]. rewrite Hx. reflexivity.
Qed.

(** The text of one note. *)
Lemma stringify_note (n : Note) :
  stringify (js_of_note n) =
  lit "{" ++ QuoteJSONString (lit "id") ++ lit ":" ++ QuoteJSONString (id n) ++
  lit "," ++ QuoteJSONString (lit "title") ++ lit ":" ++ QuoteJSONString (title n) ++
  lit "," ++ QuoteJSONString (lit "content") ++ lit ":" ++ QuoteJSONString (content n) ++
  lit "," ++ QuoteJSONString (lit "createdAt") ++ lit ":" ++
  stringify (js_of_timestamp (createdAt n)) ++ lit "}".
Proof.
  cbn [js_of_note stringify map join]. rewrite <- !app_assoc. reflexivity.
Qed.

Lemma parses_note (fuel : nat) (n : Note) :
  parses_as (6 + fuel) (stringify (js_of_note n)) (parsed_note n).
Proof.
  intros tail. rewrite stringify_note. rewrite <- !app_assoc.
  change (6 + fuel)%nat with (S (S (S (S (S (S fuel)))))).
  rewrite parse_value_object.
  rewrite (parse_members_more _ _ _ (VString (id n))) by apply parses_string.
  rewrite (parse_members_more _ _ _ (VString (title n))) by apply parses_string.
  rewrite (parse_members_more _ _ _ (VString (content n))) by apply parses_string.
  rewrite (parse_members_last _ _ _ (parsed_timestamp (createdAt n)))
    by apply parses_timestamp.
  reflexivity.
Qed.

Lemma join_two (p q : jsstring) (r : list jsstring) :
  join (p :: q :: r) = p ++ lit "," ++ join (q :: r).
Proof. reflexivity. Qed.

Lemma join_head (p : jsstring) (r : list jsstring) :
  exists tail, join (p :: r) = p ++ tail.
Proof.
  destruct r as [|q r].
  - exists []. symmetry; apply app_nil_r.
  - eexists. apply join_two.
Qed.

Lemma parse_items_notes (l : list Note) :
  forall (n : Note) (fuel : nat) (rest : jsstring),
    parse_items (List.length l + 7 + fuel)
      (join (map stringify (map js_of_note (n :: l))) ++ lit "]" ++ rest) =
    Some (map parsed_note (n :: l), rest).
Proof.
  induction l as [|n2 l IH]; intros n fuel rest.
  - cbn [map join List.length].
    apply (parse_items_last (6 + fuel)), parses_note.
  - cbn [map]. rewrite join_two, <- !app_assoc.
    change (List.length (n2 :: l) + 7 + fuel)%nat
      with (S (List.length l + 7 + fuel)).
    rewrite (parse_items_more _ _ (parsed_note n)).
    + change (stringify (js_of_note n2) :: map stringify (map js_of_note l))
        with (map stringify (map js_of_note (n2 :: l))).
      rewrite IH. reflexivity.
    + replace (List.length l + 7 + fuel)%nat
        with (6 + (List.length l + 1 + fuel))%nat by lia.
      apply parses_note.
Qed.

Lemma parse_value_notes (l : list Note) (n : Note) (fuel : nat) (tail : jsstring) :
  parse_value (S fuel) (lit "[" ++ join (map stringify (map js_of_note (n :: l))) ++ tail) =
  let? (items, rest) :=
    parse_items fuel (join (map stringify (map js_of_note (n :: l))) ++ tail) in
  Some (VArray items, rest).
Proof.
  cbn [map]. destruct (join_head (stringify (js_of_note n))
                                 (map stringify (map js_of_note l))) as (t & ->).
  rewrite stringify_note, <- !app_assoc. reflexivity.
Qed.

(** [JSON.parse] accepts the text of every collection and rebuilds its
    notes, each date as the string [toJSON] gave it. *)
Lemma parse_stringify_notes (l : list Note) :
  parse (stringify (js_of_notes l)) = Some (VArray (map parsed_note l)).
Proof.
  destruct l as [|n l]; [ reflexivity | ].
  apply (parse_complete _ (S (List.length l + 7 + 0)) _ []); [ | reflexivity ].
  unfold js_of_notes. cbn [stringify].
  rewrite parse_value_notes.
  replace (lit "]") with (lit "]" ++ []) by apply app_nil_r.
  rewrite parse_items_notes. reflexivity.
Qed.

End StoredText.

(* ================================================================== *)
(** ** Saving and loading *)

Lemma getItem_setItem_same (key v : jsstring) (st : localStorage.Storage) :
  localStorage.getItem key (localStorage.setItem key v st) = Some v.
Proof.
  unfold localStorage.getItem, localStorage.setItem.
  rewrite str_eqb_refl. reflexivity.
Qed.

Lemma getItem_setItem_other (key k v : jsstring) (st : localStorage.Storage) :
  k <> key ->
  localStorage.getItem k (localStorage.setItem key v st) = localStorage.getItem k st.
Proof.
  intros H. unfold localStorage.getItem, localStorage.setItem.
  apply str_eqb_neq in H. rewrite H. reflexivity.
Qed.

Lemma note_of_js_parsed (n : Note) :
  valid_timestamp (createdAt n) = true ->
  note_of_js (parsed_note n) = Some (stored n).
Proof.
  intros Hv. unfold parsed_note, note_of_js, stored.
  destruct (createdAt n) as [t|s]; cbn [valid_timestamp] in Hv;
    cbn [parsed_timestamp stored_timestamp]; rewrite ?Hv;
    rewrite !str_eqb_refl; reflexivity.
Qed.

Lemma notes_of_js_parsed (l : list Note) :
  Forall (fun n => valid_timestamp (createdAt n) = true) l ->
  notes_of_js (JSON.VArray (map parsed_note l)) = Some (map stored l).
Proof.
  unfold notes_of_js. induction 1 as [|n l Hn Hl IH]; [ reflexivity | ].
  cbn [map all_some]. rewrite (note_of_js_parsed n Hn), IH. reflexivity.
Qed.

Lemma stringify_notes_nonempty (l : list Note) :
  exists c text, JSON.stringify (js_of_notes l) = c :: text.
Proof. eexists _, _. reflexivity. Qed.

Lemma load_save (l : list Note) (st : localStorage.Storage) :
  Forall (fun n => valid_timestamp (createdAt n) = true) l ->
  load (save l st) = LoadedNotes (map stored l).
Proof.
  intros Hv. unfold load, save. rewrite getItem_setItem_same.
  destruct (stringify_notes_nonempty l) as (c & text & E).
  rewrite E, <- E, parse_stringify_notes, (notes_of_js_parsed l Hv).
  reflexivity.
Qed.

Lemma timeValue_stored (ts : Timestamp) :
  valid_timestamp ts = true ->
  timeValue (stored_timestamp ts) = timeValue ts.
Proof.
  destruct ts as [t|s]; cbn [valid_timestamp stored_timestamp timeValue]; auto.
  intros Hv. rewrite (Date_parse_toISOString t Hv).
  unfold Date.TimeClip. rewrite Hv. reflexivity.
Qed.

Lemma stored_idempotent (n : Note) : stored (stored n) = stored n.
Proof. destruct n as [i t c [d|s]]; reflexivity. Qed.

(** Notes read from storage carry strings; notes made while running carry
    the clock reading of their creation. *)
Lemma stored_valid (n : Note) : valid_timestamp (createdAt (stored n)) = true.
Proof. destruct n as [i t c [d|s]]; reflexivity. Qed.

(** C6.  For a collection whose [Date] objects hold time values in range,
    storing it and loading it again gives the notes back one for one and in
    order, with the same ids, titles and contents; each creation timestamp
    comes back as the ISO string of the same instant, to the millisecond.
    Storing and loading once more changes nothing. *)
Theorem save_load_roundtrip (l : list Note) (st : localStorage.Storage) :
  Forall (fun n => valid_timestamp (createdAt n) = true) l ->
  exists l',
    load (save l st) = LoadedNotes l' /\
    List.length l' = List.length l /\
    (forall k n, nth_error l k = Some n ->
       exists n', nth_error l' k = Some n' /\
                  id n' = id n /\ title n' = title n /\ content n' = content n /\
                  timeValue (createdAt n') = timeValue (createdAt n) /\
                  createdAt n' = stored_timestamp (createdAt n)) /\
    load (save l' st) = LoadedNotes l'.
Proof.
  intros Hv. exists (map stored l).
  split; [ apply load_save; exact Hv | ].
  split; [ apply length_map | ].
  split.
  - intros k n Hk. exists (stored n).
    split; [ rewrite nth_error_map, Hk; reflexivity | ].
    repeat split.
    apply timeValue_stored.
    rewrite Forall_forall in Hv. apply Hv. eapply nth_error_In; eauto.
  - rewrite load_save.
    + rewrite map_map. f_equal. apply map_ext. intros n; apply stored_idempotent.
    + apply Forall_forall. intros n Hn. apply in_map_iff in Hn.
      destruct Hn as (m & <- & _). apply stored_valid.
Qed.

Lemma save_load_roundtrip_witness :
  exists l',
    load (save [newNote 1700000000001 1700000000002; stored (newNote 5 6)]
               (fun _ => None)) = LoadedNotes l' /\
    List.length l' = 2%nat.
Proof.
  destruct (save_load_roundtrip
              [newNote 1700000000001 1700000000002; stored (newNote 5 6)]
              (fun _ => None)) as (l' & Hload & Hlen & _).
  - repeat constructor.
  - exists l'. split; [ exact Hload | exact Hlen ].
Defined.

(* ================================================================== *)
(** ** The storage slot mirrors the collection *)

Lemma control_mutation (s : AppState) (e : Event) (h : Handler) :
  control s e = Some h -> replaces_notes (h s) = mutation e.
Proof.
  destruct e; cbn [control mutation]; intros H;
    repeat match type of H with
           | match ?x with _ => _ end = _ => destruct x; try discriminate H
           | (if ?x then _ else _) = _ => destruct x; try discriminate H
           end;
    injection H as <-; try reflexivity.
Qed.

Lemma rerender_keeps_notes (s : AppState) (calls : list SetState) :
  replaces_notes calls = false -> notes (rerender s calls) = notes s.
Proof.
  unfold rerender. revert s; induction calls as [|u calls IH]; intros s H; [ reflexivity | ].
  cbn [fold_left]. cbn [replaces_notes existsb] in H.
  apply orb_false_iff in H. destruct H as [Hu Hc].
  rewrite IH by exact Hc. destruct u; [ discriminate Hu | reflexivity | reflexivity ].
Qed.

Lemma act_dispatch (w : World) (e : Event) (w' : World) :
  act w e = Some w' -> dispatch (ui w) e = Some (ui w').
Proof.
  unfold act, dispatch. destruct (control (ui w) e) as [h|]; [ | discriminate ].
  intros H; injection H as <-. reflexivity.
Qed.

Lemma act_storage (w : World) (e : Event) (w' : World) :
  act w e = Some w' ->
  storage w' = if mutation e then save (notes (ui w')) (storage w) else storage w.
Proof.
  unfold act. destruct (control (ui w) e) as [h|] eqn:Hc; [ | discriminate ].
  intros H; injection H as <-. cbn [storage ui].
  rewrite (control_mutation _ _ _ Hc). reflexivity.
Qed.

Lemma slot_after_save (l : list Note) (st : localStorage.Storage) :
  localStorage.getItem slot (save l st) = Some (JSON.stringify (js_of_notes l)).
Proof. apply getItem_setItem_same. Qed.

Lemma mount_storage (st : localStorage.Storage) (w : World) :
  mount st = Some w ->
  exists l, load st = LoadedNotes l /\ ui w = initial l /\ storage w = save l st.
Proof.
  unfold mount. destruct (load st) as [l| |v]; try discriminate.
  intros H; injection H as <-. exists l. repeat split.
Qed.

(** C7.  Mounting writes the serialization of the loaded collection into the
    slot; each creation, save and deletion replaces the content of the slot,
    whatever it was, by the serialization of the new collection; the other
    interactions touch neither the collection nor the storage.  Hence at
    every moment of a session the slot holds exactly the serialization of the
    current collection, and no other key is ever written. *)
Theorem slot_mirrors_collection :
  (forall st w, mount st = Some w ->
     storage w = save (notes (ui w)) st) /\
  (forall w e w', act w e = Some w' -> mutation e = true ->
     storage w' = save (notes (ui w')) (storage w) /\
     localStorage.getItem slot (storage w') =
       Some (JSON.stringify (js_of_notes (notes (ui w'))))) /\
  (forall w e w', act w e = Some w' -> mutation e = false ->
     storage w' = storage w /\ notes (ui w') = notes (ui w)) /\
  (forall st w, running st w ->
     localStorage.getItem slot (storage w) =
       Some (JSON.stringify (js_of_notes (notes (ui w)))) /\
     (forall k, k <> slot ->
        localStorage.getItem k (storage w) = localStorage.getItem k st)).
Proof.
  assert (Hstill : forall w e w', act w e = Some w' -> mutation e = false ->
                     storage w' = storage w /\ notes (ui w') = notes (ui w)).
  { intros w e w' Hact Hm. split.
    - rewrite (act_storage _ _ _ Hact), Hm. reflexivity.
    - unfold act in Hact. destruct (control (ui w) e) as [h|] eqn:Hc; [ | discriminate ].
      injection Hact as <-. cbn [ui].
      apply rerender_keeps_notes. rewrite (control_mutation _ _ _ Hc). exact Hm. }
  split; [ | split; [ | split; [ exact Hstill | ] ] ].
  - intros st w Hm. destruct (mount_storage st w Hm) as (l & _ & Hui & Hst).
    rewrite Hst, Hui. reflexivity.
  - intros w e w' Hact Hm. rewrite (act_storage _ _ _ Hact), Hm.
    split; [ reflexivity | apply slot_after_save ].
  - intros st w Hrun. induction Hrun as [w Hm | w e w' Hrun [IHslot IHkeys] Hact].
    + destruct (mount_storage st w Hm) as (l & _ & Hui & Hst).
      rewrite Hst, Hui. split; [ apply slot_after_save | ].
      intros k Hk. apply getItem_setItem_other; exact Hk.
    + destruct (mutation e) eqn:Hm.
      * rewrite (act_storage _ _ _ Hact), Hm. split; [ apply slot_after_save | ].
        intros k Hk. unfold save. rewrite getItem_setItem_other by exact Hk. auto.
      * destruct (Hstill w e w' Hact Hm) as [-> ->]. split; assumption.
Qed.

Lemma slot_mirrors_collection_witness :
  exists w,
    act {| ui := initial []; storage := save [] (fun _ => None) |}
        (ClickCreate 1700000000001 1700000000002) = Some w /\
    localStorage.getItem slot (storage w) =
      Some (JSON.stringify (js_of_notes [newNote 1700000000001 1700000000002])).
Proof.
  eexists. split; [ reflexivity | ].
  refine (proj1 (proj2 (proj2 (proj2 slot_mirrors_collection)) (fun _ => None) _ _)).
  apply (run_act _ {| ui := initial []; storage := save [] (fun _ => None) |}
                 (ClickCreate 1700000000001 1700000000002)).
  - apply run_mount. reflexivity.
  - reflexivity.
Defined.

(* ================================================================== *)
(** ** Every date the component holds is valid *)

Lemma all_some_Forall {A B} (f : A -> option B) (P : B -> Prop) (l : list A) :
  (forall a b, f a = Some b -> P b) ->
  forall l', all_some (map f l) = Some l' -> Forall P l'.
Proof.
  intros Hf. induction l as [|a l IH]; cbn [map all_some]; intros l' H.
  - injection H as <-. constructor.
  - destruct (f a) as [b|] eqn:Ea; [ | discriminate H ]. cbn [bind] in H.
    destruct (all_some (map f l)) as [r|]; [ | discriminate H ]. cbn [bind] in H.
    injection H as <-. constructor; eauto.
Qed.

Lemma note_of_js_valid (v : JSON.value) (n : Note) :
  note_of_js v = Some n -> valid_timestamp (createdAt n) = true.
Proof.
  unfold note_of_js. intros H.
  repeat match type of H with
         | match ?x with _ => _ end = _ => destruct x; try discriminate H
         end.
  injection H as <-. reflexivity.
Qed.

Lemma load_valid (st : localStorage.Storage) (l : list Note) :
  load st = LoadedNotes l -> dates_valid (initial l).
Proof.
  intros H. split; [ | discriminate ]. cbn [notes initial].
  unfold load in H.
  destruct (localStorage.getItem slot st) as [[|c text]|];
    try (injection H as <-; constructor).
  destruct (JSON.parse (c :: text)) as [v|]; [ | discriminate H ].
  destruct (notes_of_js v) as [l0|] eqn:E; [ | discriminate H ].
  injection H as <-. unfold notes_of_js in E.
  destruct v; try discriminate E.
  apply (all_some_Forall note_of_js _ items); [ apply note_of_js_valid | exact E ].
Qed.

Lemma Forall_valid_find (l : list Note) (p : Note -> bool) (a : Note) :
  Forall (fun n => valid_timestamp (createdAt n) = true) l ->
  find p l = Some a -> valid_timestamp (createdAt a) = true.
Proof.
  intros Hl Hf. apply find_some in Hf. rewrite Forall_forall in Hl. apply Hl, Hf.
Qed.

Lemma Forall_valid_filter (l : list Note) (p : Note -> bool) :
  Forall (fun n => valid_timestamp (createdAt n) = true) l ->
  Forall (fun n => valid_timestamp (createdAt n) = true) (filter p l).
Proof.
  rewrite !Forall_forall. intros H n Hn. apply filter_In in Hn. apply H, Hn.
Qed.

(** Each interaction whose clock reading is in range keeps the dates valid. *)
Lemma dispatch_dates_valid (s : AppState) (e : Event) (s' : AppState) :
  dates_valid s -> clock_in_range e = true ->
  dispatch s e = Some s' -> dates_valid s'.
Proof.
  intros [Hn Ha] Hc Hd. unfold dispatch in Hd.
  destruct (control s e) as [h|] eqn:Hh; [ | discriminate Hd ].
  injection Hd as <-.
  destruct e; cbn [control clock_in_range] in Hh, Hc.
  - injection Hh as <-. rewrite run_createNewNote.
    split; cbn [notes activeNote].
    + constructor; [ exact Hc | exact Hn ].
    + intros a E; injection E as <-. exact Hc.
  - destruct (nth_error (notes s) i) as [n|] eqn:En; [ | discriminate Hh ].
    injection Hh as <-. split; [ exact Hn | ].
    cbn. intros a E; injection E as <-.
    rewrite Forall_forall in Hn. apply Hn. eapply nth_error_In; eauto.
  - destruct (nth_error (notes s) i) as [n|] eqn:En; [ | discriminate Hh ].
    injection Hh as <-. split.
    + rewrite notes_run_deleteNote. apply Forall_valid_filter, Hn.
    + unfold run, deleteNote.
      destruct (activeNote s) as [a0|] eqn:Ea; [ | cbn; rewrite Ea; discriminate ].
      destruct (str_eqb (id a0) (id n)).
      * cbn. intros a E.
        assert (Hf := Forall_valid_filter (notes s)
                        (fun note => negb (str_eqb (id note) (id n))) Hn).
        destruct (filter _ (notes s)) as [|first rest]; [ discriminate E | ].
        injection E as <-. inversion Hf; assumption.
      * cbn. rewrite Ea. exact (Ha).
  - destruct (activeNote s) as [a0|] eqn:Ea; [ | discriminate Hh ].
    destruct (isEditing s); [ discriminate Hh | ].
    injection Hh as <-. split; [ exact Hn | ]. cbn. rewrite Ea. exact Ha.
  - destruct (activeNote s) as [a0|] eqn:Ea; [ | discriminate Hh ].
    destruct (isEditing s); [ | discriminate Hh ].
    injection Hh as <-. split; [ exact Hn | ].
    cbn. intros a E; injection E as <-. apply (Ha a0 eq_refl).
  - destruct (activeNote s) as [a0|] eqn:Ea; [ | discriminate Hh ].
    destruct (isEditing s); [ | discriminate Hh ].
    injection Hh as <-. split; [ exact Hn | ].
    cbn. intros a E; injection E as <-. apply (Ha a0 eq_refl).
  - destruct (activeNote s) as [a0|] eqn:Ea; [ | discriminate Hh ].
    destruct (isEditing s); [ | discriminate Hh ].
    injection Hh as <-. rewrite run_updateNote. split; cbn [notes activeNote].
    + apply Forall_forall. intros n Hin. apply in_map_iff in Hin.
      destruct Hin as (m & <- & Hm).
      destruct (str_eqb (id m) (id a0)); [ apply (Ha a0 eq_refl) | ].
      rewrite Forall_forall in Hn. apply Hn, Hm.
    + intros a E; injection E as <-. apply (Ha a0 eq_refl).
  - destruct (activeNote s) as [a0|] eqn:Ea; [ | discriminate Hh ].
    destruct (isEditing s); [ | discriminate Hh ].
    injection Hh as <-. split; [ exact Hn | ].
    cbn. intros a E. eapply Forall_valid_find; eauto.
Qed.

(** Reloading the page after any interaction, from a valid state, finds the
    collection of the moment. *)
Lemma reload_after_act (w : World) (e : Event) (w' : World) :
  dates_valid (ui w) -> clock_in_range e = true ->
  load (storage w) = LoadedNotes (map stored (notes (ui w))) ->
  act w e = Some w' ->
  dates_valid (ui w') /\
  load (storage w') = LoadedNotes (map stored (notes (ui w'))).
Proof.
  intros Hv Hc Hl Hact.
  assert (Hv' : dates_valid (ui w'))
    by (eapply dispatch_dates_valid; eauto using act_dispatch).
  split; [ exact Hv' | ].
  destruct (mutation e) eqn:Hm.
  - rewrite (act_storage _ _ _ Hact), Hm. apply load_save, Hv'.
  - rewrite (act_storage _ _ _ Hact), Hm.
    unfold act in Hact. destruct (control (ui w) e) as [h|] eqn:Hh; [ | discriminate ].
    injection Hact as <-. cbn [ui].
    rewrite rerender_keeps_notes by (rewrite (control_mutation _ _ _ Hh); exact Hm).
    exact Hl.
Qed.

Lemma reload_after_session (es : list Event) :
  forall w w',
    dates_valid (ui w) ->
    load (storage w) = LoadedNotes (map stored (notes (ui w))) ->
    forallb clock_in_range es = true ->
    session w es = Some w' ->
    load (storage w') = LoadedNotes (map stored (notes (ui w'))).
Proof.
  induction es as [|e es IH]; intros w w' Hv Hl Hc Hs.
  - injection Hs as <-. exact Hl.
  - cbn [forallb] in Hc. apply andb_true_iff in Hc. destruct Hc as [He Hes].
    cbn [session] in Hs. destruct (act w e) as [w1|] eqn:Hact; [ | discriminate Hs ].
    cbn [bind] in Hs.
    destruct (reload_after_act w e w1 Hv He Hl Hact) as [Hv1 Hl1].
    exact (IH w1 w' Hv1 Hl1 Hes Hs).
Qed.

(** X12.  Whatever the storage held at mounting, as long as the component
    could mount: after any session whose clock readings a [Date] can hold, a
    reload finds the collection of the moment, dates as ISO strings; a draft
    that was not saved is not found. *)
Lemma reload_finds_collection (st : localStorage.Storage) (w w' : World)
      (es : list Event) :
  mount st = Some w ->
  forallb clock_in_range es = true ->
  session w es = Some w' ->
  load (storage w') = LoadedNotes (map stored (notes (ui w'))).
Proof.
  intros Hm Hc Hs.
  destruct (mount_storage st w Hm) as (l & Hload & Hui & Hst).
  assert (Hv : dates_valid (ui w)) by (rewrite Hui; eapply load_valid; eauto).
  apply (reload_after_session es w w' Hv); auto.
  rewrite Hst, Hui. apply load_save.
  rewrite Hui in Hv. exact (proj1 Hv).
Qed.

Lemma reload_finds_collection_witness :
  exists w w',
    mount (fun _ => None) = Some w /\
    session w [ClickCreate 1700000000000 1700000000000; TypeTitle (lit "draft")]
      = Some w' /\
    load (storage w') = LoadedNotes (map stored (notes (ui w'))) /\
    notes (ui w') = [newNote 1700000000000 1700000000000].
Proof.
  do 2 eexists. split; [ reflexivity | ]. split; [ reflexivity | ].
  split; [ | reflexivity ].
  eapply (reload_finds_collection (fun _ => None) _ _
            [ClickCreate 1700000000000 1700000000000; TypeTitle (lit "draft")]);
    reflexivity.
Defined.

(* ================================================================== *)
(** ** The model on known values *)

Example Number_toString_clock :
  Number_toString 1700000000000 = lit "1700000000000" /\
  Number_toString 0 = lit "0" /\
  Number_toString (-15) = lit "-15".
Proof. repeat split. Qed.

Example toISOString_known :
  Date.toISOString 0 = lit "1970-01-01T00:00:00.000Z" /\
  Date.toISOString 1700000000000 = lit "2023-11-14T22:13:20.000Z" /\
  Date.toISOString 951868799999 = lit "2000-02-29T23:59:59.999Z" /\
  Date.toISOString (-1) = lit "1969-12-31T23:59:59.999Z" /\
  Date.toISOString (-62167219200001) = lit "-000001-12-31T23:59:59.999Z" /\
  Date.toISOString 253402300800000 = lit "+010000-01-01T00:00:00.000Z" /\
  Date.toISOString Date.maxTime = lit "+275760-09-13T00:00:00.000Z" /\
  Date.toISOString (- Date.maxTime) = lit "-271821-04-20T00:00:00.000Z".
Proof. repeat split; vm_compute; reflexivity. Qed.

Example Date_parse_known :
  Date.parse (lit "2024-02-29T12:34:56.789Z") = Some 1709210096789 /\
  Date.parse (lit "2023-02-29T12:34:56.789Z") = None /\
  Date.parse (lit "2024-02-29T24:00:00.000Z") = Some 1709251200000 /\
  Date.parse (lit "+275760-09-13T00:00:00.001Z") = None.
Proof. repeat split; vm_compute; reflexivity. Qed.

Example stringify_known :
  JSON.stringify (js_of_notes [newNote 1700000000000 1700000000000]) =
  dq "[{'id':'1700000000000','title':'New Note','content':'','createdAt':'2023-11-14T22:13:20.000Z'}]" /\
  JSON.stringify (JSON.VString [34; 92; 10; 1; 0xD83D; 0xDE00; 0xDC00; 65]%N) =
  [34; 92; 34; 92; 92; 92; 110; 92; 117; 48; 48; 48; 49; 0xD83D; 0xDE00;
   92; 117; 100; 99; 48; 48; 65; 34]%N /\
  JSON.stringify (js_of_notes []) = lit "[]".
Proof. repeat split; vm_compute; reflexivity. Qed.

Example parse_known :
  JSON.parse (dq " [ {'a' : [ ], 'b' : {}}, 'xA\n', -0.1e+5, true, null ] ") =
  Some (JSON.VArray
          [JSON.VObject [(lit "a", JSON.VArray []); (lit "b", JSON.VObject [])];
           JSON.VString [120; 65; 10]%N; JSON.VNumber (lit "-0.1e+5");
           JSON.VBool true; JSON.VNull]) /\
  JSON.parse (dq "[1,]") = None /\
  JSON.parse (dq "[01]") = None /\
  JSON.parse (dq "{'a':1") = None /\
  JSON.parse (lit "") = None.
Proof. repeat split; vm_compute; reflexivity. Qed.

(** The scenario of the specification: from nothing, create, type, save,
    delete. *)
Example scenario :
  exists w1 w2 w3,
    mount (fun _ => None) = Some w1 /\
    notes (ui w1) = [] /\
    act w1 (ClickCreate 1700000000000 1700000000000) = Some w2 /\
    notes (ui w2) = [newNote 1700000000000 1700000000000] /\
    isEditing (ui w2) = true /\
    (let? w := act w2 (TypeTitle (lit "Groceries")) in
     let? w := act w (TypeContent (lit "milk, eggs")) in
     act w ClickSave) = Some w3 /\
    notes (ui w3) =
      [ {| id := lit "1700000000000"; title := lit "Groceries";
           content := lit "milk, eggs"; createdAt := DateObj 1700000000000 |} ] /\
    localStorage.getItem slot (storage w3) =
      Some (dq "[{'id':'1700000000000','title':'Groceries','content':'milk, eggs','createdAt':'2023-11-14T22:13:20.000Z'}]") /\
    option_map ui (act w3 (ClickDelete 0)) = Some (initial []).
Proof.
  do 3 eexists. repeat split; vm_compute; reflexivity.
Qed.

(* ================================================================== *)
(** * Further properties of the component *)

(** ** The selection always names an entry *)

Lemma in_ids (l : list Note) (n : Note) : In n l -> In (id n) (map id l).
Proof. apply in_map. Qed.


Lemma ids_run_updateNote (d : Note) (s : AppState) :
  map id (notes (run (updateNote d) s)) = map id (notes s).
Proof.
  rewrite notes_run_updateNote, map_map. apply map_ext_in.
  intros n _. unfold replace_by_id.
  destruct (str_eqb (id n) (id d)) eqn:E; [ | reflexivity ].
  apply str_eqb_eq in E. congruence.
Qed.




Lemma find_by_id_some (l : list Note) (i : jsstring) :
  In i (map id l) ->
  exists n, find (fun note => str_eqb (id note) i) l = Some n /\
            In n l /\ id n = i.
Proof.
  induction l as [|m l IH]; cbn [map find]; intros H; [ destruct H | ].
  destruct (str_eqb (id m) i) eqn:E.
  - exists m. apply str_eqb_eq in E. repeat split; [ left; reflexivity | exact E ].
  - destruct H as [H|H]; [ apply str_eqb_neq in E; contradiction | ].
    destruct (IH H) as (n & Hf & Hin & Hid).
    exists n. repeat split; [ exact Hf | right; exact Hin | exact Hid ].
Qed.





(** ** Ids stay distinct *)

(** Dropping entries cannot create a repeated id. *)
Lemma ids_distinct_filter (keep : Note -> bool) (l : list Note) :
  NoDup (map id l) -> NoDup (map id (filter keep l)).
Proof.
  induction l as [|n l IH]; intros Hnd; [ exact Hnd | ].
  cbn [map] in Hnd. apply NoDup_cons_iff in Hnd. destruct Hnd as [Hfirst Hrest].
  cbn [filter]. destruct (keep n); [ | exact (IH Hrest) ].
  cbn [map]. apply NoDup_cons_iff. split; [ | exact (IH Hrest) ].
  intros Hin. apply Hfirst.
  apply in_map_iff in Hin. destruct Hin as (m & Em & Hm).
  rewrite <- Em. apply in_ids. apply filter_In in Hm. exact (proj1 Hm).
Qed.

Lemma dispatch_keeps_notes (s : AppState) (e : Event) (s' : AppState) :
  dispatch s e = Some s' -> mutation e = false -> notes s' = notes s.
Proof.
  unfold dispatch. destruct (control s e) as [h|] eqn:Hh; [ | discriminate ].
  intros H Hm; injection H as <-.
  apply rerender_keeps_notes. rewrite (control_mutation _ _ _ Hh). exact Hm.
Qed.

(** X3.  An interaction keeps the ids of the collection pairwise distinct,
    provided that a creation gets a [Date.now()] reading whose decimal form
    is not yet an id of the collection; selecting, editing, saving,
    cancelling and deleting need no condition. *)
Theorem ids_stay_distinct (s : AppState) (e : Event) (s' : AppState) :
  NoDup (map id (notes s)) ->
  fresh_for s e = true ->
  dispatch s e = Some s' ->
  NoDup (map id (notes s')).
Proof.
  intros Hnd Hf Hd.
  destruct (mutation e) eqn:Hm;
    [ | rewrite (dispatch_keeps_notes s e s' Hd Hm); exact Hnd ].
  unfold dispatch in Hd.
  destruct (control s e) as [h|] eqn:Hh; [ | discriminate Hd ].
  injection Hd as <-.
  destruct e; try discriminate Hm; cbn [control fresh_for] in Hh, Hf.
  - injection Hh as <-. rewrite run_createNewNote. cbn [notes map].
    constructor; [ | exact Hnd ].
    intros Hin. apply negb_true_iff in Hf.
    assert (Hex : existsb (str_eqb (Number_toString now)) (map id (notes s)) = true).
    { apply existsb_exists. exists (Number_toString now).
      split; [ exact Hin | apply str_eqb_refl ]. }
    congruence.
  - destruct (nth_error (notes s) i) as [n|]; [ | discriminate Hh ].
    injection Hh as <-. rewrite notes_run_deleteNote.
    apply ids_distinct_filter, Hnd.
  - destruct (activeNote s) as [a|]; [ | discriminate Hh ].
    destruct (isEditing s); [ | discriminate Hh ].
    injection Hh as <-. rewrite ids_run_updateNote. exact Hnd.
Qed.

Lemma ids_stay_distinct_witness :
  NoDup (map id (notes (run (createNewNote 8 8) (initial [newNote 7 7])))).
Proof.
  apply (ids_stay_distinct (initial [newNote 7 7]) (ClickCreate 8 8)).
  - cbn. constructor; [ intros [] | constructor ].
  - reflexivity.
  - reflexivity.
Defined.

(** ** Deleting *)

Lemma run_deleteNote_cases (i : jsstring) (s : AppState) :
  run (deleteNote i) s =
  if active_has_id s i
  then {| notes := without_id i (notes s);
          activeNote := first_of (without_id i (notes s));
          isEditing := false |}
  else {| notes := without_id i (notes s);
          activeNote := activeNote s;
          isEditing := isEditing s |}.
Proof.
  unfold run, deleteNote, active_has_id, without_id, first_of.
  destruct (activeNote s) as [a|] eqn:Ea.
  - destruct (str_eqb (id a) i); cbn; rewrite ?Ea; reflexivity.
  - cbn. rewrite Ea. reflexivity.
Qed.

Lemma without_id_absent (i : jsstring) (l : list Note) :
  ~ In i (map id (without_id i l)).
Proof.
  intros H. apply in_map_iff in H. destruct H as (n & E & Hn).
  apply filter_other_ids_In in Hn. tauto.
Qed.

Lemma without_id_idempotent (i : jsstring) (l : list Note) :
  without_id i (without_id i l) = without_id i l.
Proof.
  apply filter_other_ids_absent, without_id_absent.
Qed.

Lemma without_id_comm (i j : jsstring) (l : list Note) :
  without_id i (without_id j l) = without_id j (without_id i l).
Proof.
  unfold without_id. induction l as [|n l IH]; [ reflexivity | ].
  cbn [filter].
  destruct (negb (str_eqb (id n) j)) eqn:Ej, (negb (str_eqb (id n) i)) eqn:Ei;
    cbn [filter]; rewrite ?Ei, ?Ej, IH; reflexivity.
Qed.

Lemma first_of_without_id (i : jsstring) (l : list Note) (n : Note) :
  first_of (without_id i l) = Some n -> id n <> i.
Proof.
  intros H. assert (Hin : In n (without_id i l)).
  { destruct (without_id i l) as [|m r]; [ discriminate H | ].
    injection H as <-. left. reflexivity. }
  apply filter_other_ids_In in Hin. tauto.
Qed.

(** X4.  After [deleteNote(id)] no entry of the collection carries that id,
    and deleting the same id once more changes nothing, neither in the
    collection nor in the selection nor in the editing flag. *)
Theorem deleteNote_idempotent (i : jsstring) (s : AppState) :
  ~ In i (map id (notes (run (deleteNote i) s))) /\
  run (deleteNote i) (run (deleteNote i) s) = run (deleteNote i) s.
Proof.
  split.
  - rewrite notes_run_deleteNote. apply without_id_absent.
  - rewrite (run_deleteNote_cases i (run (deleteNote i) s)).
    rewrite (run_deleteNote_cases i s).
    destruct (active_has_id s i) eqn:Ea.
    + unfold active_has_id at 1. cbn [activeNote notes isEditing].
      rewrite without_id_idempotent.
      destruct (first_of (without_id i (notes s))) as [n|] eqn:Ef; [ | reflexivity ].
      apply first_of_without_id in Ef. apply str_eqb_neq in Ef. rewrite Ef.
      reflexivity.
    + unfold active_has_id at 1. cbn [activeNote notes isEditing].
      unfold active_has_id in Ea. rewrite Ea, without_id_idempotent. reflexivity.
Qed.




Lemma first_of_without_other (i j : jsstring) (l : list Note) :
  (forall n, first_of (without_id i l) = Some n -> id n <> j) ->
  first_of (without_id j (without_id i l)) = first_of (without_id i l).
Proof.
  intros H. destruct (without_id i l) as [|n r]; [ reflexivity | ].
  specialize (H n eq_refl). apply str_eqb_neq in H.
  unfold without_id. cbn [filter]. rewrite H. reflexivity.
Qed.

(** X6.  Two deletions commute: deleting [i] then [j] leaves the same
    collection, the same active note and the same editing flag as deleting
    [j] then [i]. *)
Theorem deleteNote_commute (i j : jsstring) (s : AppState) :
  run (deleteNote i) (run (deleteNote j) s) =
  run (deleteNote j) (run (deleteNote i) s).
Proof.
  assert (Hone : forall i j, active_has_id s i = true -> active_has_id s j = false ->
            run (deleteNote i) (run (deleteNote j) s) =
            run (deleteNote j) (run (deleteNote i) s)).
  { clear i j. intros i j Hi Hj.
    rewrite (run_deleteNote_cases i (run (deleteNote j) s)).
    rewrite (run_deleteNote_cases j (run (deleteNote i) s)).
    rewrite (run_deleteNote_cases j s), (run_deleteNote_cases i s), Hi, Hj.
    unfold active_has_id at 1. cbn [activeNote notes isEditing].
    fold (active_has_id s i). rewrite Hi.
    unfold active_has_id at 1. cbn [activeNote notes isEditing].
    rewrite (without_id_comm i j).
    destruct (first_of (without_id i (notes s))) as [n|] eqn:Ef.
    - destruct (str_eqb (id n) j) eqn:En; [ reflexivity | ].
      rewrite first_of_without_other; [ rewrite Ef; reflexivity | ].
      intros m Em. rewrite Ef in Em. injection Em as <-.
      apply str_eqb_neq. exact En.
    - rewrite first_of_without_other; [ rewrite Ef; reflexivity | ].
      intros m Em. rewrite Ef in Em. discriminate Em. }
  destruct (active_has_id s i) eqn:Hi, (active_has_id s j) eqn:Hj.
  - assert (E : i = j).
    { unfold active_has_id in Hi, Hj. destruct (activeNote s) as [a|]; [ | discriminate Hi ].
      apply str_eqb_eq in Hi, Hj. congruence. }
    subst j. reflexivity.
  - apply Hone; assumption.
  - symmetry. apply Hone; assumption.
  - rewrite (run_deleteNote_cases i (run (deleteNote j) s)).
    rewrite (run_deleteNote_cases j (run (deleteNote i) s)).
    rewrite (run_deleteNote_cases j s), (run_deleteNote_cases i s), Hi, Hj.
    unfold active_has_id at 1. cbn [activeNote notes isEditing].
    fold (active_has_id s i). rewrite Hi.
    unfold active_has_id at 1. cbn [activeNote notes isEditing].
    fold (active_has_id s j). rewrite Hj.
    rewrite (without_id_comm i j). reflexivity.
Qed.

(** ** Saving *)

Lemma dispatch_ClickEdit s a :
  activeNote s = Some a -> isEditing s = false ->
  dispatch s ClickEdit =
  Some {| notes := notes s; activeNote := Some a; isEditing := true |}.
Proof.
  intros Ha He. unfold dispatch. cbn [control]. rewrite Ha, He.
  unfold run, beginEdit. cbn. rewrite Ha. reflexivity.
Qed.

Lemma dispatch_ClickCancel s a :
  activeNote s = Some a -> isEditing s = true ->
  dispatch s ClickCancel =
  Some {| notes := notes s;
          activeNote := find (fun note => str_eqb (id note) (id a)) (notes s);
          isEditing := false |}.
Proof.
  intros Ha He. unfold dispatch. cbn [control]. rewrite Ha, He. reflexivity.
Qed.

Lemma replace_by_id_idempotent (d n : Note) :
  replace_by_id d (replace_by_id d n) = replace_by_id d n.
Proof.
  unfold replace_by_id. destruct (str_eqb (id n) (id d)) eqn:E.
  - rewrite str_eqb_refl. reflexivity.
  - rewrite E. reflexivity.
Qed.

Lemma find_after_replace (d : Note) (l : list Note) :
  In (id d) (map id l) ->
  find (fun note => str_eqb (id note) (id d)) (map (replace_by_id d) l) = Some d.
Proof.
  induction l as [|n l IH]; cbn [map find]; intros H; [ destruct H | ].
  unfold replace_by_id at 1 2.
  destruct (str_eqb (id n) (id d)) eqn:E.
  - rewrite str_eqb_refl. reflexivity.
  - rewrite E. apply IH. destruct H as [H|H]; [ | exact H ].
    apply str_eqb_neq in E. contradiction.
Qed.

(** X7.  [updateNote] leaves the sequence of ids of the collection as it
    is (no entry is added, dropped or moved); saving the same note twice is
    the same as saving it once; and when the collection holds the id of the
    saved note, looking that id up afterwards finds the saved note. *)
Theorem updateNote_keeps_ids (d : Note) (s : AppState) :
  map id (notes (run (updateNote d) s)) = map id (notes s) /\
  run (updateNote d) (run (updateNote d) s) = run (updateNote d) s /\
  (In (id d) (map id (notes s)) ->
   find (fun note => str_eqb (id note) (id d)) (notes (run (updateNote d) s)) = Some d).
Proof.
  split; [ apply ids_run_updateNote | split ].
  - rewrite !run_updateNote. cbn [notes]. f_equal.
    rewrite map_map. apply map_ext. intros n.
    apply (replace_by_id_idempotent d n).
  - intros H. rewrite notes_run_updateNote. apply find_after_replace, H.
Qed.

Lemma updateNote_keeps_ids_witness :
  find (fun note => str_eqb (id note) (id (newNote 1 1)))
       (notes (run (updateNote (with_title (newNote 1 1) (lit "X")))
                   (initial [newNote 2 2; newNote 1 1])))
  = Some (with_title (newNote 1 1) (lit "X")).
Proof.
  apply (updateNote_keeps_ids (with_title (newNote 1 1) (lit "X"))
                              (initial [newNote 2 2; newNote 1 1])).
  cbn. right. left. reflexivity.
Defined.

Lemma NoDup_ids_same (l : list Note) (n m : Note) :
  NoDup (map id l) -> In n l -> In m l -> id n = id m -> n = m.
Proof.
  induction l as [|x l IH]; cbn [map In]; intros Hnd Hn Hm E; [ destruct Hn | ].
  inversion Hnd as [|y r Hx Hl]; subst.
  destruct Hn as [->|Hn], Hm as [->|Hm]; auto.
  - exfalso. apply Hx. rewrite E. apply in_ids, Hm.
  - exfalso. apply Hx. rewrite <- E. apply in_ids, Hn.
Qed.

Lemma map_replace_entry (a : Note) (l : list Note) :
  NoDup (map id l) -> In a l -> map (replace_by_id a) l = l.
Proof.
  intros Hnd Ha. rewrite <- (map_id l) at 2. apply map_ext_in.
  intros n Hn. unfold replace_by_id.
  destruct (str_eqb (id n) (id a)) eqn:E; [ | reflexivity ].
  apply str_eqb_eq in E. symmetry. eapply NoDup_ids_same; eauto.
Qed.

(** X8.  With pairwise distinct ids, pressing Edit and then Save on a note
    that is shown as it stands in the collection brings the component back
    to the very state it was in. *)
Theorem edit_save_is_identity (s : AppState) (a : Note) :
  NoDup (map id (notes s)) ->
  activeNote s = Some a ->
  isEditing s = false ->
  In a (notes s) ->
  interact s [ClickEdit; ClickSave] = Some s.
Proof.
  intros Hnd Ha He Hin. cbn [interact].
  rewrite (dispatch_ClickEdit s a Ha He).
  rewrite (dispatch_ClickSave
             {| notes := notes s; activeNote := Some a; isEditing := true |}
             a eq_refl eq_refl).
  rewrite run_updateNote. cbn [notes].
  change (map _ (notes s)) with (map (replace_by_id a) (notes s)).
  rewrite (map_replace_entry a (notes s) Hnd Hin).
  destruct s as [ns an ed]. cbn in *. subst. reflexivity.
Qed.

Lemma edit_save_is_identity_witness :
  interact {| notes := [newNote 2 2; newNote 1 1];
              activeNote := Some (newNote 1 1); isEditing := false |}
           [ClickEdit; ClickSave]
  = Some {| notes := [newNote 2 2; newNote 1 1];
            activeNote := Some (newNote 1 1); isEditing := false |}.
Proof.
  apply (edit_save_is_identity
           {| notes := [newNote 2 2; newNote 1 1];
              activeNote := Some (newNote 1 1); isEditing := false |}
           (newNote 1 1)).
  - cbn. constructor; [ | constructor; [ intros [] | constructor ] ].
    intros [E | []]. discriminate E.
  - reflexivity.
  - reflexivity.
  - right. left. reflexivity.
Defined.

(** X9.  Saving the draft and then editing again, typing and cancelling
    comes back to the saved draft: Cancel reverts to the last saved version,
    and the collection stays as the save left it. *)
Theorem cancel_reverts_to_saved (s : AppState) (d : Note) (edits : list DraftEdit) :
  activeNote s = Some d ->
  isEditing s = true ->
  In (id d) (map id (notes s)) ->
  interact s (ClickSave :: ClickEdit :: map draft_event edits ++ [ClickCancel]) =
  Some (run (updateNote d) s).
Proof.
  intros Ha He Hin. cbn [interact].
  rewrite (dispatch_ClickSave s d Ha He).
  set (s1 := run (updateNote d) s).
  assert (Hn1 : notes s1 = map (replace_by_id d) (notes s))
    by apply notes_run_updateNote.
  rewrite (dispatch_ClickEdit s1 d eq_refl eq_refl).
  destruct (interact_draft_edits edits [ClickCancel]
              {| notes := notes s1; activeNote := Some d; isEditing := true |}
              d eq_refl eq_refl) as (d' & Hid & _ & Hrun).
  rewrite Hrun. cbn [interact notes].
  rewrite (dispatch_ClickCancel
             {| notes := notes s1; activeNote := Some d'; isEditing := true |}
             d' eq_refl eq_refl).
  cbn [notes].
  rewrite Hid, Hn1, (find_after_replace d (notes s) Hin), <- Hn1.
  reflexivity.
Qed.

Lemma cancel_reverts_to_saved_witness :
  interact {| notes := [newNote 2 2; newNote 1 1];
              activeNote := Some (with_title (newNote 1 1) (lit "X"));
              isEditing := true |}
           (ClickSave :: ClickEdit :: map draft_event [EditTitle (lit "Y")]
              ++ [ClickCancel])
  = Some {| notes := [newNote 2 2; with_title (newNote 1 1) (lit "X")];
            activeNote := Some (with_title (newNote 1 1) (lit "X"));
            isEditing := false |}.
Proof.
  apply (cancel_reverts_to_saved
           {| notes := [newNote 2 2; newNote 1 1];
              activeNote := Some (with_title (newNote 1 1) (lit "X"));
              isEditing := true |}
           (with_title (newNote 1 1) (lit "X")) [EditTitle (lit "Y")]).
  - reflexivity.
  - reflexivity.
  - cbn. right. left. reflexivity.
Defined.

(** ** Leaving a draft *)

Lemma find_unique (l : list Note) (n : Note) :
  NoDup (map id l) -> In n l ->
  find (fun note => str_eqb (id note) (id n)) l = Some n.
Proof.
  intros Hnd Hin.
  destruct (find_by_id_some l (id n) (in_ids l n Hin)) as (m & Hf & Hm & E).
  rewrite Hf. f_equal. eapply NoDup_ids_same; eauto.
Qed.

(** X10.  While a note is being edited, a click on a list item drops the
    draft: whatever was typed, the collection is as before and the clicked
    entry is shown, not edited.  With pairwise distinct ids, clicking the
    item of the note being edited does exactly what Cancel does. *)
Theorem select_discards_draft (s : AppState) (a n : Note) (k : nat)
        (edits : list DraftEdit) :
  activeNote s = Some a ->
  isEditing s = true ->
  nth_error (notes s) k = Some n ->
  interact s (map draft_event edits ++ [ClickNote k]) =
    Some {| notes := notes s; activeNote := Some n; isEditing := false |} /\
  (NoDup (map id (notes s)) -> id n = id a ->
   interact s (map draft_event edits ++ [ClickNote k]) =
   interact s (map draft_event edits ++ [ClickCancel])).
Proof.
  intros Ha He Hk.
  destruct (interact_draft_edits edits [ClickNote k] s a Ha He) as (a1 & _ & _ & R1).
  assert (Hsel : interact s (map draft_event edits ++ [ClickNote k]) =
                 Some {| notes := notes s; activeNote := Some n; isEditing := false |}).
  { rewrite R1. cbn [interact]. unfold dispatch. cbn [control notes]. rewrite Hk.
    reflexivity. }
  split; [ exact Hsel | ].
  intros Hnd Hid. rewrite Hsel.
  destruct (interact_draft_edits edits [ClickCancel] s a Ha He) as (a2 & Hid2 & _ & R2).
  rewrite R2. cbn [interact].
  rewrite (dispatch_ClickCancel
             {| notes := notes s; activeNote := Some a2; isEditing := true |}
             a2 eq_refl eq_refl).
  cbn [notes].
  rewrite Hid2, <- Hid, (find_unique (notes s) n Hnd (nth_error_In _ _ Hk)).
  reflexivity.
Qed.

Lemma select_discards_draft_witness :
  interact {| notes := [newNote 2 2; newNote 1 1];
              activeNote := Some (newNote 1 1); isEditing := true |}
           (map draft_event [EditTitle (lit "draft")] ++ [ClickNote 0])
  = Some {| notes := [newNote 2 2; newNote 1 1];
            activeNote := Some (newNote 2 2); isEditing := false |}.
Proof.
  apply (select_discards_draft
           {| notes := [newNote 2 2; newNote 1 1];
              activeNote := Some (newNote 1 1); isEditing := true |}
           (newNote 1 1) (newNote 2 2) 0 [EditTitle (lit "draft")]);
    reflexivity.
Defined.

(** ** Creating and deleting *)

(** X11.  Creating a note whose id is new and deleting it at once gives the
    old collection back; the first entry of the collection, if any, is then
    the active note (not the one that was active before), and editing is
    off. *)
Theorem create_then_delete (now today : Z) (s : AppState) :
  ~ In (Number_toString now) (map id (notes s)) ->
  interact s [ClickCreate now today; ClickDelete 0] =
  Some {| notes := notes s; activeNote := first_of (notes s); isEditing := false |}.
Proof.
  intros Hfresh. cbn [interact]. unfold dispatch at 1. cbn [control].
  rewrite run_createNewNote. unfold dispatch. cbn [control notes nth_error].
  rewrite run_deleteNote_cases. unfold active_has_id. cbn [activeNote notes id newNote].
  rewrite str_eqb_refl. unfold without_id. cbn [filter id newNote].
  rewrite str_eqb_refl. cbn [negb].
  rewrite (filter_other_ids_absent _ _ Hfresh). reflexivity.
Qed.

Lemma create_then_delete_witness :
  interact (initial [newNote 1 1]) [ClickCreate 2 2; ClickDelete 0] =
  Some {| notes := [newNote 1 1]; activeNote := Some (newNote 1 1);
          isEditing := false |}.
Proof.
  apply (create_then_delete 2 2 (initial [newNote 1 1])).
  cbn. intros [E | []]. discriminate E.
Defined.

(** ** Reloading *)

Lemma load_of_text (l : list Note) (st : localStorage.Storage) :
  Forall (fun n => valid_timestamp (createdAt n) = true) l ->
  localStorage.getItem slot st = Some (JSON.stringify (js_of_notes l)) ->
  load st = LoadedNotes (map stored l).
Proof.
  intros Hv Hg. unfold load. rewrite Hg.
  destruct (stringify_notes_nonempty l) as (c & text & E).
  rewrite E, <- E, parse_stringify_notes, (notes_of_js_parsed l Hv).
  reflexivity.
Qed.

Lemma stringify_stored (l : list Note) :
  Forall (fun n => valid_timestamp (createdAt n) = true) l ->
  JSON.stringify (js_of_notes (map stored l)) = JSON.stringify (js_of_notes l).
Proof.
  intros Hv. unfold js_of_notes. cbn [JSON.stringify]. do 3 f_equal.
  rewrite !map_map. apply map_ext_in. intros n Hn.
  rewrite Forall_forall in Hv. specialize (Hv n Hn).
  unfold js_of_note, stored. cbn [id title content createdAt].
  destruct (createdAt n) as [t|x]; cbn [valid_timestamp] in Hv;
    cbn [stored_timestamp js_of_timestamp JSON.stringify map];
    rewrite ?Hv; reflexivity.
Qed.

(** X13.  When the slot holds the text the component wrote for a collection
    with valid dates, mounting again loads that collection (dates as ISO
    strings) and its normalizing write puts the very same text back: a reload
    changes nothing in the storage. *)
Theorem reload_keeps_text (l : list Note) (st : localStorage.Storage) :
  Forall (fun n => valid_timestamp (createdAt n) = true) l ->
  localStorage.getItem slot st = Some (JSON.stringify (js_of_notes l)) ->
  exists w,
    mount st = Some w /\
    notes (ui w) = map stored l /\
    forall k, localStorage.getItem k (storage w) = localStorage.getItem k st.
Proof.
  intros Hv Hg. unfold mount. rewrite (load_of_text l st Hv Hg).
  eexists. split; [ reflexivity | ]. split; [ reflexivity | ].
  intros k. cbn [storage]. unfold save.
  destruct (str_eqb k slot) eqn:E.
  - apply str_eqb_eq in E. subst k.
    rewrite getItem_setItem_same, Hg, (stringify_stored l Hv). reflexivity.
  - apply str_eqb_neq in E. apply getItem_setItem_other, E.
Qed.

Lemma reload_keeps_text_witness :
  exists w,
    mount (save [newNote 1700000000001 1700000000002] (fun _ => None)) = Some w /\
    notes (ui w) = [stored (newNote 1700000000001 1700000000002)].
Proof.
  destruct (reload_keeps_text [newNote 1700000000001 1700000000002]
              (save [newNote 1700000000001 1700000000002] (fun _ => None)))
    as (w & Hm & Hn & _).
  - repeat constructor.
  - reflexivity.
  - exists w. split; [ exact Hm | exact Hn ].
Defined.

(** X14.  When the storage has no [notes] entry, or an empty one, the
    component starts with an empty collection and nothing selected; the
    text of the empty array is written into the slot and every other key is
    left as it was. *)
Theorem mount_without_slot (st : localStorage.Storage) :
  localStorage.getItem slot st = None \/ localStorage.getItem slot st = Some [] ->
  exists w,
    mount st = Some w /\
    ui w = initial [] /\
    localStorage.getItem slot (storage w) = Some (lit "[]") /\
    forall k, k <> slot ->
      localStorage.getItem k (storage w) = localStorage.getItem k st.
Proof.
  intros H.
  assert (E : load st = LoadedNotes [])
    by (unfold load; destruct H as [-> | ->]; reflexivity).
  unfold mount. rewrite E. eexists. split; [ reflexivity | ].
  split; [ reflexivity | ]. split.
  - cbn [storage]. rewrite slot_after_save. reflexivity.
  - intros k Hk. cbn [storage]. apply getItem_setItem_other, Hk.
Qed.

Lemma mount_without_slot_witness :
  exists w, mount (fun _ => None) = Some w /\ ui w = initial [].
Proof.
  destruct (mount_without_slot (fun _ => None)) as (w & Hm & Hu & _).
  - left. reflexivity.
  - exists w. split; [ exact Hm | exact Hu ].
Defined.



(** X16.  Over a whole session every date the component holds stays valid,
    in the collection and in the active note, as long as the clock readings
    behind the creations are times a [Date] can hold. *)
Theorem session_dates_valid (st : localStorage.Storage) (es : list Event) :
  forall w w',
    mount st = Some w ->
    forallb clock_in_range es = true ->
    session w es = Some w' ->
    dates_valid (ui w').
Proof.
  assert (Hgo : forall es w w', dates_valid (ui w) ->
            forallb clock_in_range es = true ->
            session w es = Some w' -> dates_valid (ui w')).
  { clear es. induction es as [|e es IH]; intros w w' Hv Hc Hs.
    - injection Hs as <-. exact Hv.
    - cbn [forallb] in Hc. apply andb_true_iff in Hc. destruct Hc as [He Hes].
      cbn [session] in Hs. destruct (act w e) as [w1|] eqn:Ha; [ | discriminate Hs ].
      cbn [bind] in Hs. apply (IH w1 w'); auto.
      eapply dispatch_dates_valid; eauto using act_dispatch. }
  intros w w' Hm Hc Hs. apply (Hgo es w w'); auto.
  destruct (mount_storage st w Hm) as (l & Hl & Hui & _).
  rewrite Hui. eapply load_valid; eauto.
Qed.

Lemma session_dates_valid_witness :
  dates_valid (run (createNewNote 1700000000000 1700000000000) (initial [])).
Proof.
  apply (session_dates_valid (fun _ => None)
           [ClickCreate 1700000000000 1700000000000]
           {| ui := initial []; storage := save [] (fun _ => None) |}
           {| ui := run (createNewNote 1700000000000 1700000000000) (initial []);
              storage := save [newNote 1700000000000 1700000000000]
                              (save [] (fun _ => None)) |});
    reflexivity.
Defined.

(** ** The view *)

Section ViewFacts.

Variable LocalTZA : Z -> Z.


Lemma formatDate_stored (ts : Timestamp) :
  valid_timestamp ts = true ->
  formatDate LocalTZA (stored_timestamp ts) = formatDate LocalTZA ts.
Proof.
  destruct ts as [t|x]; cbn [valid_timestamp stored_timestamp formatDate]; auto.
  intros Hv. rewrite (Date_parse_toISOString t Hv), Hv. reflexivity.
Qed.

(** X17.  The date shown for a note is the same before and after a trip
    through the storage, in every time zone: the ISO string read back
    formats as the [Date] it was written from.  The list item of a reloaded
    note shows the same key, title and date. *)
Theorem formatDate_survives_reload (s s' : AppState) (n : Note) :
  valid_timestamp (createdAt n) = true ->
  formatDate LocalTZA (createdAt (stored n)) = formatDate LocalTZA (createdAt n) /\
  item_key (render_item LocalTZA s' (stored n)) = item_key (render_item LocalTZA s n) /\
  item_title (render_item LocalTZA s' (stored n)) = item_title (render_item LocalTZA s n) /\
  item_date (render_item LocalTZA s' (stored n)) = item_date (render_item LocalTZA s n).
Proof.
  intros Hv. cbn [render_item item_key item_title item_date stored id title createdAt].
  rewrite (formatDate_stored (createdAt n) Hv). repeat split.
Qed.


Lemma sidebar_same_active_id (s s' : AppState) (a a' : Note) :
  notes s' = notes s -> activeNote s = Some a -> activeNote s' = Some a' ->
  id a' = id a ->
  sidebar (render LocalTZA s') = sidebar (render LocalTZA s).
Proof.
  intros Hn Ha Ha' Hid. unfold render. cbn [sidebar]. rewrite Hn.
  destruct (notes s) as [|n l]; [ reflexivity | ]. f_equal.
  apply map_ext. intros m. unfold render_item. rewrite Ha, Ha', Hid. reflexivity.
Qed.

(** X19.  Typing into the title or the content field changes what the
    detail pane shows and nothing in the list: titles, dates and highlight of
    the items stay as they are until the draft is saved. *)
Theorem typing_leaves_list (s s' : AppState) (d : DraftEdit) :
  dispatch s (draft_event d) = Some s' ->
  sidebar (render LocalTZA s') = sidebar (render LocalTZA s) /\
  exists a,
    activeNote s = Some a /\
    pane (render LocalTZA s) = EditPane (title a) (content a) /\
    pane (render LocalTZA s') =
      match d with
      | EditTitle v => EditPane v (content a)
      | EditContent v => EditPane (title a) v
      end.
Proof.
  intros Hd.
  assert (Hst : exists a, activeNote s = Some a /\ isEditing s = true).
  { unfold dispatch in Hd. destruct d; cbn [draft_event control] in Hd;
      destruct (activeNote s) as [a|]; try discriminate Hd;
      destruct (isEditing s); try discriminate Hd; eauto. }
  destruct Hst as (a & Ha & He).
  destruct d as [v|v]; cbn [draft_event] in Hd.
  - rewrite (dispatch_TypeTitle s a v Ha He) in Hd. injection Hd as <-. split.
    + apply (sidebar_same_active_id s _ a (with_title a v)); auto.
    + exists a. unfold render. cbn [pane activeNote isEditing]. rewrite Ha, He.
      repeat split.
  - rewrite (dispatch_TypeContent s a v Ha He) in Hd. injection Hd as <-. split.
    + apply (sidebar_same_active_id s _ a (with_content a v)); auto.
    + exists a. unfold render. cbn [pane activeNote isEditing]. rewrite Ha, He.
      repeat split.
Qed.

End ViewFacts.

Lemma formatDate_survives_reload_witness :
  formatDate (fun _ => -18000000)
             (createdAt (stored (newNote 1704412800000 1704412800000))) =
  Some (lit "Jan 4, 2024").
Proof.
  rewrite (proj1 (formatDate_survives_reload (fun _ => -18000000)
                    (initial []) (initial [])
                    (newNote 1704412800000 1704412800000) eq_refl)).
  vm_compute. reflexivity.
Defined.


Lemma typing_leaves_list_witness :
  sidebar (render (fun _ => 0)
             {| notes := [newNote 7 7];
                activeNote := Some (with_title (newNote 7 7) (lit "X"));
                isEditing := true |}) =
  sidebar (render (fun _ => 0) (run (createNewNote 7 7) (initial []))).
Proof.
  apply (typing_leaves_list (fun _ => 0) (run (createNewNote 7 7) (initial []))
           {| notes := [newNote 7 7];
              activeNote := Some (with_title (newNote 7 7) (lit "X"));
              isEditing := true |}
           (EditTitle (lit "X"))).
  reflexivity.
Defined.

Example formatDate_known :
  formatDate (fun _ => 0) (DateObj 1700000000000) = Some (lit "Nov 14, 2023") /\
  formatDate (fun _ => 0) (DateStr (lit "2024-01-05T00:00:00.000Z")) =
    Some (lit "Jan 5, 2024") /\
  formatDate (fun _ => -18000000) (DateStr (lit "2024-01-05T00:00:00.000Z")) =
    Some (lit "Jan 4, 2024") /\
  formatDate (fun _ => 0) (DateObj (Date.maxTime + 1)) = Some (lit "Invalid Date").
Proof. repeat split; vm_compute; reflexivity. Qed.

(** ** What the component writes can be read *)

(** X20.  Whatever the collection, the text the effect writes is accepted
    by [JSON.parse], which rebuilds one object per note with the four
    properties in order: the next start never meets a [SyntaxError] of the
    component's own making. *)
Theorem written_text_parses (l : list Note) (st : localStorage.Storage) :
  JSON.parse (JSON.stringify (js_of_notes l)) = Some (JSON.VArray (map parsed_note l)) /\
  load (save l st) <> LoadSyntaxError.
Proof.
  split; [ apply parse_stringify_notes | ].
  unfold load, save. rewrite getItem_setItem_same.
  destruct (stringify_notes_nonempty l) as (c & text & E).
  rewrite E, <- E, parse_stringify_notes.
  destruct (notes_of_js (JSON.VArray (map parsed_note l))); discriminate.
Qed.
